(** * The ingestion and retrieval pipeline of [vector_database.py]

    A shallow embedding of the module: the loader, the splitter, the
    process-wide index handle, ingestion into the remote vector index and
    the thresholded similarity query, with the properties its
    specification states about them. *)

From Stdlib Require Import ZArith QArith Lia Ascii String List Sorted Permutation.
From Stdlib Require Import Numbers.DecimalString.
From stdpp Require Import base option list strings gmap.

Local Open Scope Z_scope.
Local Open Scope nat_scope.

(** ** Text primitives

    Python [str] values are modelled by [string]; a character is one
    [ascii] code (code points 0..255). *)

Module Str.

Definition len (s : string) : nat := String.length s.

Definition is_empty (s : string) : bool := String.eqb s EmptyString.

(** [str.isspace] on one character, for the code points in range. *)
Definition is_space (c : ascii) : bool :=
  let n := nat_of_ascii c in
  ((9 <=? n) && (n <=? 13)) || ((28 <=? n) && (n <=? 32))
  || (n =? 133) || (n =? 160).

Fixpoint lstrip (s : string) : string :=
  match s with
  | EmptyString => EmptyString
  | String c s' => if is_space c then lstrip s' else s
  end.

Fixpoint rstrip (s : string) : string :=
  match s with
  | EmptyString => EmptyString
  | String c s' =>
      let r := rstrip s' in
      if is_empty r && is_space c then EmptyString else String c r
  end.

(** [s.strip()] *)
Definition strip (s : string) : string := rstrip (lstrip s).

(** [s.endswith(suffix)]: read backwards, [s] starts with [suffix]. *)
Definition endswith (s suffix : string) : bool :=
  String.prefix (String.rev suffix) (String.rev s).

Definition tail (n : nat) (s : string) : string :=
  String.substring (len s - n) n s.

(** [sep in s], by scanning every position. *)
Fixpoint contains (sep s : string) : bool :=
  String.prefix sep s
  || match s with
     | EmptyString => false
     | String _ s' => contains sep s'
     end.

(** [list(s)]: the characters of [s] as one-character strings. *)
Fixpoint chars (s : string) : list string :=
  match s with
  | EmptyString => []
  | String c s' => String c EmptyString :: chars s'
  end.

(** [re.split(re.escape(sep), s)] for a non-empty literal [sep]: the
    segments between the non-overlapping occurrences of [sep], scanned
    left to right.  [skip] counts the characters of a matched separator
    still to be jumped over. *)
Fixpoint re_split (sep : string) (skip : nat) (s : string) : list string :=
  match s with
  | EmptyString => [EmptyString]
  | String c s' =>
      match skip with
      | S k => re_split sep k s'
      | O =>
          if String.prefix sep s
          then EmptyString :: re_split sep (len sep - 1) s'
          else match re_split sep 0 s' with
               | seg :: rest => String c seg :: rest
               | [] => [String c EmptyString]
               end
      end
  end.

(** [s.find(sub, start)]: the first position [>= start] at which [sub]
    occurs, [-1] when there is none.  [pos] is the position of the head
    of [s] in the original text. *)
Fixpoint find_at (sub s : string) (pos start : nat) : Z :=
  if (start <=? pos) && String.prefix sub s then Z.of_nat pos
  else match s with
       | EmptyString => (-1)%Z
       | String _ s' => find_at sub s' (S pos) start
       end.

Definition find (sub s : string) (start : Z) : Z :=
  find_at sub s 0 (Z.to_nat start).

(** [str(n)] for a natural number. *)
Definition of_nat (n : nat) : string := NilEmpty.string_of_uint (Nat.to_uint n).

(** [s * n] *)
Fixpoint repeat (s : string) (n : nat) : string :=
  match n with
  | O => EmptyString
  | S k => s +:+ repeat s k
  end.

End Str.

(** ** Documents and chunks

    A langchain [Document]: its text and the metadata the pipeline reads
    and writes ([source], and [start_index] once it has been split). *)

Record Document : Type := mkDocument {
  page_content : string;
  source : string;
  start_index : option Z
}.

(** ** The splitter *)

Section RecursiveCharacterTextSplitter.

Variables (chunk_size chunk_overlap : nat).

(** The text-splitting helper [RecursiveCharacterTextSplitter] of the
    langchain package, which [text_spliter] constructs and calls, is not
    part of this repository.  The definitions of this section model it
    from section 4.2 of the specification: it splits recursively on a
    list of separators, coarsest first (paragraph break, line break,
    space, and finally between any two characters), keeps each separator
    at the start of the piece that follows it, and merges the pieces
    that are shorter than [chunk_size] greedily into chunks, carrying
    whole trailing pieces of at most [chunk_overlap] characters over
    into the next chunk; every chunk is stripped of surrounding white
    space and empty chunks are dropped. *)

(** Modelled from the spec: the missing splitter's cut of a text at one
    separator, each separator kept at the start of the piece after it
    and empty pieces dropped; the empty separator cuts between any two
    characters. *)
Definition split_text_with_regex (separator text : string) : list string :=
  let splits :=
    if Str.is_empty separator then Str.chars text
    else match Str.re_split separator 0 text with
         | [] => []
         | first :: rest => first :: map (String.append separator) rest
         end in
  List.filter (fun s => negb (Str.is_empty s)) splits.

(** Modelled from the spec: the length of the pieces of a chunk of the
    missing splitter, which joins them without a separator. *)
Definition total_len (pieces : list string) : nat :=
  list_sum (map Str.len pieces).

(** Modelled from the spec: the text of a chunk of the missing
    splitter, its pieces joined and stripped; there is none when nothing
    but white space is left. *)
Definition join_docs (pieces : list string) : option string :=
  let text := Str.strip (String.concat EmptyString pieces) in
  if Str.is_empty text then None else Some text.

(** Modelled from the spec: the chunk of the missing splitter, if any,
    that the pieces collected so far give. *)
Definition emit (current_doc : list string) : list string :=
  match join_docs current_doc with
  | Some doc => [doc]
  | None => []
  end.

(** Modelled from the spec: the overlap the missing splitter keeps.
    Pieces are dropped from the front of the chunk just emitted while
    more than [chunk_overlap] characters remain, or while the piece [d]
    of length [len_d] still does not fit. *)
Fixpoint pop_front (len_d : nat) (current_doc : list string) : list string :=
  match current_doc with
  | [] => []
  | _ :: rest =>
      let total := total_len current_doc in
      if (chunk_overlap <? total) || ((chunk_size <? total + len_d) && (0 <? total))
      then pop_front len_d rest
      else current_doc
  end.

(** Modelled from the spec: the greedy merge of the missing splitter.
    The pieces are collected in [current_doc]; when the next piece would
    make it longer than [chunk_size], the chunk is emitted and the
    collection restarts from its overlap. *)
Fixpoint merge_loop (splits current_doc : list string) : list string :=
  match splits with
  | [] => emit current_doc
  | d :: rest =>
      if chunk_size <? total_len current_doc + Str.len d then
        match current_doc with
        | [] => merge_loop rest [d]
        | _ :: _ =>
            emit current_doc
            ++ merge_loop rest (pop_front (Str.len d) current_doc ++ [d])
        end
      else merge_loop rest (current_doc ++ [d])
  end.

(** Modelled from the spec: the merge of the missing splitter, from an
    empty collection. *)
Definition merge_splits (splits : list string) : list string :=
  merge_loop splits [].



(** Modelled from the spec: the loop of the missing splitter over the
    pieces of one separator.  Short pieces are collected and merged; a
    piece of [chunk_size] characters or more is split with the remaining
    separators ([deeper]), or kept as it is when there is none left. *)
Fixpoint split_loop (deeper : option (string -> list string))
    (splits good_splits : list string) : list string :=
  match splits with
  | [] => merge_splits good_splits
  | s :: rest =>
      if Str.len s <? chunk_size then split_loop deeper rest (good_splits ++ [s])
      else
        merge_splits good_splits
        ++ match deeper with
           | None => [s]
           | Some split_deeper => split_deeper s
           end
        ++ split_loop deeper rest []
  end.

(** Modelled from the spec: the recursive strategy of the missing
    splitter.  [separators] are the separators still to be tried: the
    first one that is empty or occurs in [text] is used, and the ones
    after it are left for the pieces that are too long; when none
    occurs, the last one is used.  (The list is never empty.) *)
Fixpoint split_text (separators : list string) (text : string) : list string :=
  match separators with
  | [] => []
  | separator :: new_separators =>
      match new_separators with
      | [] => split_loop None (split_text_with_regex separator text) []
      | _ :: _ =>
          if Str.is_empty separator
          then split_loop None (split_text_with_regex separator text) []
          else if Str.contains separator text
          then split_loop (Some (split_text new_separators))
                 (split_text_with_regex separator text) []
          else split_text new_separators text
      end
  end.

(** Modelled from the spec: the chunks of the missing splitter as
    documents, with the metadata of their source and, for
    [add_start_index=True], their start offset: each chunk is located in
    the text by a search that starts where the overlap with the chunk
    before may begin. *)
Fixpoint create_documents (text src : string) (index previous_chunk_len : Z)
    (chunks : list string) : list Document :=
  match chunks with
  | [] => []
  | chunk :: rest =>
      let offset := (index + previous_chunk_len - Z.of_nat chunk_overlap)%Z in
      let index' := Str.find chunk text (Z.max 0 offset) in
      mkDocument chunk src (Some index')
      :: create_documents text src index' (Z.of_nat (Str.len chunk)) rest
  end.

(** Modelled from the spec: the missing splitter on one document. *)
Definition split_document (separators : list string) (doc : Document)
  : list Document :=
  create_documents (page_content doc) (source doc) 0 0
    (split_text separators (page_content doc)).

(** Modelled from the spec: [split_documents] of the missing splitter,
    the chunks of the documents in their order. *)
Definition split_documents (separators : list string)
    (documents : list Document) : list Document :=
  flat_map (split_document separators) documents.

End RecursiveCharacterTextSplitter.

(** ** Exceptions and outcomes *)

Inductive transient : Type := NetworkTimeout | RateLimited.

Inductive exn : Type :=
  | ValueError (msg : string)
  | UnicodeDecodeError (msg : string)
  | TransientServiceError (kind : transient) (msg : string)
  | ServiceError (msg : string)
  | TypeError (msg : string)
  | RuntimeError (msg : string)
  | OtherError (msg : string).

(** [str(e)] *)
Definition str (e : exn) : string :=
  match e with
  | ValueError msg | UnicodeDecodeError msg | TransientServiceError _ msg
  | ServiceError msg | TypeError msg | RuntimeError msg | OtherError msg => msg
  end.

(** The failures a caller may retry: time-outs and rate limiting. *)
Definition retryable (e : exn) : bool :=
  match e with
  | TransientServiceError _ _ => true
  | _ => false
  end.

Inductive outcome (A : Type) : Type :=
  | Ok (a : A)
  | Raise (e : exn).
Arguments Ok {A} a.
Arguments Raise {A} e.

Definition error_of {A} (r : outcome A) : option exn :=
  match r with
  | Ok _ => None
  | Raise e => Some e
  end.

(** ** The remote services and the process state *)

Inductive encoding : Type := utf_8 | latin_1.

(** The handle of a vector store: the object ([h_id] tells two objects
    apart) and the index it is bound to. *)
Record Handle : Type := mkHandle {
  h_id : nat;
  h_index : string
}.

Record Index : Type := mkIndex {
  dimension : nat;
  records : list Document
}.

(** [ServerlessSpec(cloud=..., region=...)]: where the index service is
    to deploy a new index. *)
Record ServerlessSpec : Type := mkServerlessSpec {
  cloud : string;
  region : string
}.

Inductive service_call : Type :=
  | ListIndexes
  | DeleteIndex (name : string)
  | CreateIndex (name : string) (dim : nat)
  | DescribeIndex (name : string)
  | EmbedDocuments (texts : list string)
  | Upsert (name : string) (docs : list Document)
  | EmbedQuery (text : string)
  | Query (name : string) (k : Z).

(** A call changes the remote state only when it is one of these. *)
Definition is_write (c : service_call) : bool :=
  match c with
  | DeleteIndex _ | CreateIndex _ _ | Upsert _ _ => true
  | _ => false
  end.

(** The state the module runs in: its global [_vector_db], the indexes
    the remote service holds, the supply of object identities, the
    outcome the environment has in store for each coming service call
    ([Some e]: the call fails with [e]; [None] or no entry: the service
    answers), the calls made so far with the error each ended in, and
    what was printed. *)
Record World : Type := mkWorld {
  _vector_db : option Handle;
  indexes : gmap string Index;
  next_id : nat;
  faults : list (option exn);
  calls : list (service_call * option exn);
  stdout : list string
}.

Definition set_vector_db (db : option Handle) (w : World) : World :=
  mkWorld db (indexes w) (next_id w) (faults w) (calls w) (stdout w).
Definition set_indexes (ix : gmap string Index) (w : World) : World :=
  mkWorld (_vector_db w) ix (next_id w) (faults w) (calls w) (stdout w).
Definition set_next_id (n : nat) (w : World) : World :=
  mkWorld (_vector_db w) (indexes w) n (faults w) (calls w) (stdout w).
Definition set_faults (fs : list (option exn)) (w : World) : World :=
  mkWorld (_vector_db w) (indexes w) (next_id w) fs (calls w) (stdout w).
Definition log_call (c : service_call) (e : option exn) (w : World) : World :=
  mkWorld (_vector_db w) (indexes w) (next_id w) (faults w) (calls w ++ [(c, e)])
    (stdout w).
Definition log_line (line : string) (w : World) : World :=
  mkWorld (_vector_db w) (indexes w) (next_id w) (faults w) (calls w)
    (stdout w ++ [line]).

(** ** The monad of the module's functions: state and exceptions *)

Definition M (A : Type) : Type := World -> outcome A * World.

Definition ret {A} (a : A) : M A := fun w => (Ok a, w).

Definition raise {A} (e : exn) : M A := fun w => (Raise e, w).

Definition bind {A B} (m : M A) (f : A -> M B) : M B :=
  fun w =>
    match m w with
    | (Ok a, w') => f a w'
    | (Raise e, w') => (Raise e, w')
    end.

(** [try: m  except Exception as e: handler e] *)
Definition try_except {A} (m : M A) (handler : exn -> M A) : M A :=
  fun w =>
    match m w with
    | (Ok a, w') => (Ok a, w')
    | (Raise e, w') => handler e w'
    end.

Definition lift {A} (r : outcome A) : M A := fun w => (r, w).

Definition print (line : string) : M unit := fun w => (Ok tt, log_line line w).

Definition get_global : M (option Handle) := fun w => (Ok (_vector_db w), w).

Definition set_global (db : option Handle) : M unit :=
  fun w => (Ok tt, set_vector_db db w).

Notation "'do' x <- m ; k" := (bind m (fun x => k))
  (at level 10, x name, m at level 100, k at level 200).
Notation "'exec' m ; k" := (bind m (fun _ => k))
  (at level 10, m at level 100, k at level 200).

(** One call of a remote service: the environment either fails it with
    the error it has in store, or lets the service answer ([answer]);
    either way the call and its error, if any, are recorded. *)
Definition service {A} (c : service_call) (answer : World -> outcome A * World)
  : M A :=
  fun w =>
    match faults w with
    | Some e :: fs => (Raise e, log_call c (Some e) (set_faults fs w))
    | fs =>
        let '(r, w') := answer (set_faults (tl fs) w) in
        (r, log_call c (error_of r) w')
    end.

(** ** Ranking by score

    Scores are the relevance scores the vector store reports; a finite
    float is a rational number, and comparisons on [Q] are the
    comparisons Python makes on such floats. *)

Definition Qltb (a b : Q) : bool := negb (Qle_bool b a).

Section Ranking.

Context {A : Type}.

(** [sorted(results, key=lambda x: x[1], reverse=True)]: a stable sort,
    highest score first; records of equal score keep their order. *)
Fixpoint insert_desc (x : A * Q) (l : list (A * Q)) : list (A * Q) :=
  match l with
  | [] => [x]
  | y :: rest =>
      if Qle_bool (snd y) (snd x) then x :: l else y :: insert_desc x rest
  end.

Fixpoint sorted_desc (l : list (A * Q)) : list (A * Q) :=
  match l with
  | [] => []
  | x :: rest => insert_desc x (sorted_desc rest)
  end.

(** [l[:k]] *)
Definition slice_to (k : Z) (l : list A) : list A :=
  if (0 <=? k)%Z then firstn (Z.to_nat k) l
  else firstn (length l - Z.to_nat (- k)) l.

End Ranking.

(** ** The text loader

    [TextLoader(file_path, encoding=...).load()] of the langchain
    package, which is not part of this repository.  It reads the file
    with the encoding given ([read_text]: the text, or the exception of
    [open(file_path, encoding=...).read()]) and returns it as one
    document; whatever exception the read ends in, a decoding error
    included, it raises [RuntimeError("Error loading <path>")] in its
    place (it detects no encoding unless asked to). *)
Definition langchain_text_loader (read_text : string -> encoding -> outcome string)
    (file_path : string) (enc : encoding) : outcome (list Document) :=
  match read_text file_path enc with
  | Ok text => Ok [mkDocument text file_path None]
  | Raise _ => Raise (RuntimeError ("Error loading " +:+ file_path))
  end.

(** ** The module [vector_database] *)

Section VectorDatabase.

(** The module constants read from the environment at import. *)
Variable PINECONE_API_KEY : option string.
Variable PINECONE_INDEX_NAME : string.

(** [load()] of the three document loaders, on the files as they are
    on disk: the documents read, or the exception raised. *)
Variable PyPDFLoader : string -> outcome (list Document).
Variable UnstructuredMarkdownLoader : string -> outcome (list Document).
Variable TextLoader : string -> encoding -> outcome (list Document).

(** The relevance score the vector store reports for a query text and
    the text of a stored record (the embedding of both and the metric
    of the index). *)
Variable relevance : string -> string -> Q.

(** [if PINECONE_API_KEY:] *)
Definition api_key_set : bool :=
  match PINECONE_API_KEY with
  | Some key => negb (Str.is_empty key)
  | None => false
  end.

(** *** The clients of the two remote services

    The module reaches the vector index service and the embedding
    service through the Pinecone and langchain client packages; neither
    the services nor the clients are part of this repository.  Their
    operations are modelled from sections 4.4 and 6 of the
    specification: the index service keeps, per index name, a dimension
    and the records upserted; a query returns up to [k] of the records
    of the index, best score first. *)

(** Modelled from the spec: the width of the vectors of the missing
    embedding service (section 3). *)
Definition embedding_dimension : nat := 1536.

(** Modelled from the spec: [list_indexes().names()] of the missing
    index client. *)
Definition list_indexes : M (gset string) :=
  service ListIndexes (fun w => (Ok (dom (indexes w)), w)).

(** Modelled from the spec: [delete_index] of the missing index client;
    the index and its records are gone. *)
Definition delete_index (name : string) : M unit :=
  service (DeleteIndex name) (fun w =>
    match indexes w !! name with
    | Some _ => (Ok tt, set_indexes (delete name (indexes w)) w)
    | None => (Raise (ServiceError "index not found"), w)
    end).

(** What Python raises for a call of [create_index] without [spec]. *)
Definition missing_spec : exn :=
  TypeError "Pinecone.create_index() missing 1 required positional argument: 'spec'".

(** [create_index] of the index client, which is not part of this
    repository.  Its [spec], the deployment of the new index, is a
    required argument (the callers in [backend/scripts] pass
    [spec=ServerlessSpec(cloud='aws', region='us-east-1')]): a call
    without it raises [TypeError] when its arguments are bound, before any
    request is made.  With it the service is asked for the index, which
    is empty when it has been created. *)
Definition create_index (name : string) (dim : nat) (spec : option ServerlessSpec)
  : M unit :=
  match spec with
  | None => raise missing_spec
  | Some _ =>
      service (CreateIndex name dim) (fun w =>
        match indexes w !! name with
        | Some _ => (Raise (ServiceError "index already exists"), w)
        | None => (Ok tt, set_indexes (<[name := mkIndex dim []]> (indexes w)) w)
        end)
  end.

(** Modelled from the spec: the missing index client connecting to an
    index, which has to exist. *)
Definition describe_index (name : string) : M unit :=
  service (DescribeIndex name) (fun w =>
    match indexes w !! name with
    | Some _ => (Ok tt, w)
    | None => (Raise (ServiceError "index not found"), w)
    end).

(** Modelled from the spec: the missing embedding client on the texts
    of the chunks; the vectors themselves are not represented. *)
Definition embed_documents (texts : list string) : M unit :=
  service (EmbedDocuments texts) (fun w => (Ok tt, w)).

(** Modelled from the spec: the missing embedding client on a query. *)
Definition embed_query (text : string) : M unit :=
  service (EmbedQuery text) (fun w => (Ok tt, w)).

(** Modelled from the spec: [upsert] of the missing index client; the
    records, under fresh ids, are added to those of the index, whose
    dimension has to be that of the vectors. *)
Definition upsert (name : string) (docs : list Document) : M unit :=
  service (Upsert name docs) (fun w =>
    match indexes w !! name with
    | Some ix =>
        if dimension ix =? embedding_dimension
        then (Ok tt,
              set_indexes
                (<[name := mkIndex (dimension ix) (records ix ++ docs)]> (indexes w)) w)
        else (Raise (ServiceError "vector dimension does not match the index"), w)
    | None => (Raise (ServiceError "index not found"), w)
    end).

(** Modelled from the spec: the records with the scores the missing
    index service gives them for a query. *)
Definition scored (query_text : string) (docs : list Document)
  : list (Document * Q) :=
  map (fun d => (d, relevance query_text (page_content d))) docs.

(** Modelled from the spec: the answer of the missing index service to
    a query, up to [k] records, best score first. *)
Definition top_k (query_text : string) (k : Z) (docs : list Document)
  : list (Document * Q) :=
  firstn (Z.to_nat k) (sorted_desc (scored query_text docs)).

(** Modelled from the spec: [query] of the missing index client. *)
Definition query_index (name query_text : string) (k : Z)
  : M (list (Document * Q)) :=
  service (Query name k) (fun w =>
    match indexes w !! name with
    | Some ix => (Ok (top_k query_text k (records ix)), w)
    | None => (Raise (ServiceError "index not found"), w)
    end).

(** Modelled from the spec: a new vector-store object of the missing
    langchain client, bound to the index [name]. *)
Definition new_handle (name : string) : M Handle :=
  fun w => (Ok (mkHandle (next_id w) name), set_next_id (S (next_id w)) w).

(** Modelled from the spec: [Pinecone.from_existing_index] of the
    missing langchain client. *)
Definition from_existing_index (name : string) : M Handle :=
  exec describe_index name;
  new_handle name.

(** Modelled from the spec: [Pinecone.from_documents] of the missing
    langchain client, which embeds the chunks and upserts them. *)
Definition from_documents (chunks : list Document) (name : string) : M Handle :=
  exec describe_index name;
  do h <- new_handle name;
  exec embed_documents (map page_content chunks);
  exec upsert name chunks;
  ret h.

(** Modelled from the spec:
    [similarity_search_with_relevance_scores] of the missing langchain
    client, which embeds the query and queries the index. *)
Definition similarity_search_with_relevance_scores (vector_db : Handle)
    (query_text : string) (k : Z) : M (list (Document * Q)) :=
  exec embed_query query_text;
  query_index (h_index vector_db) query_text k.

(** *** The functions of the module *)

Definition get_vector_db : M (option Handle) :=
  do db <- get_global;
  exec match db with
       | None =>
           if api_key_set then
             do names <- list_indexes;
             if bool_decide (PINECONE_INDEX_NAME ∈ names) then
               do h <- from_existing_index PINECONE_INDEX_NAME;
               exec set_global (Some h);
               print ("Loaded existing Pinecone index '" +:+ PINECONE_INDEX_NAME +:+ "'")
             else
               print ("Pinecone index '" +:+ PINECONE_INDEX_NAME
                      +:+ "' not found. Please create it first.")
           else print "PINECONE_API_KEY not found in environment variables."
       | Some _ => ret tt
       end;
  get_global.

Definition save_to_pinecone (chunks : list Document) (overwrite : bool)
  : M (option Handle) :=
  if negb api_key_set then raise (ValueError "PINECONE_API_KEY is not set.")
  else
    exec (if overwrite then
            do names <- list_indexes;
            if bool_decide (PINECONE_INDEX_NAME ∈ names) then
              exec delete_index PINECONE_INDEX_NAME;
              exec print ("Deleted existing Pinecone index '"
                          +:+ PINECONE_INDEX_NAME +:+ "'");
              set_global None
            else ret tt
          else ret tt);
    do names <- list_indexes;
    exec (if negb (bool_decide (PINECONE_INDEX_NAME ∈ names)) then
            exec create_index PINECONE_INDEX_NAME 1536 None;
            print ("Created new Pinecone index '" +:+ PINECONE_INDEX_NAME +:+ "'")
          else ret tt);
    do h <- from_documents chunks PINECONE_INDEX_NAME;
    exec set_global (Some h);
    exec print ("Added " +:+ Str.of_nat (length chunks)
                +:+ " chunks to Pinecone index '" +:+ PINECONE_INDEX_NAME +:+ "'.");
    get_global.

(** [len(results) == 0 or results[0][1] < similarity_threshold] *)
Definition no_match (results : list (Document * Q)) (similarity_threshold : Q)
  : bool :=
  match results with
  | [] => true
  | first :: _ => Qltb (snd first) similarity_threshold
  end.

(** The body of [query_data], over what the vector-store object does
    when it is asked for [similarity_search_with_relevance_scores]
    ([search]): the function does not depend on the answer being
    ranked, or on its length. *)
Definition query_data_on
    (search : Handle -> string -> Z -> M (list (Document * Q)))
    (query_text : string) (similarity_threshold : Q) (k : Z)
  : M (list (Document * Q)) :=
  do vector_db <- get_vector_db;
  match vector_db with
  | None =>
      exec print "No vector database available. Please create one first.";
      ret []
  | Some db =>
      do results <- search db query_text k;
      if no_match results similarity_threshold then
        exec print "Unable to find matching results.";
        ret []
      else ret (slice_to k (sorted_desc results))
  end.

(** [query_data] on the vector store of the langchain client. *)
Definition query_data (query_text : string) (similarity_threshold : Q) (k : Z)
  : M (list (Document * Q)) :=
  query_data_on similarity_search_with_relevance_scores
    query_text similarity_threshold k.

Definition close_vector_db : M unit :=
  do db <- get_global;
  match db with
  | Some _ =>
      exec set_global None;
      print "Vector database connection closed."
  | None => ret tt
  end.

(** The body of the [.txt] branch: UTF-8 first, Latin-1 when that
    raises [UnicodeDecodeError], and the file is given up when the
    second attempt raises anything. *)
Definition load_text (file_path : string) (documents : list Document)
  : M (list Document) :=
  try_except
    (do docs <- lift (TextLoader file_path utf_8);
     ret (documents ++ docs))
    (fun e =>
       match e with
       | UnicodeDecodeError _ =>
           try_except
             (do docs <- lift (TextLoader file_path latin_1);
              ret (documents ++ docs))
             (fun e' =>
                exec print ("Error loading " +:+ file_path +:+ ": " +:+ str e');
                ret documents)
       | _ => raise e
       end).

Fixpoint load_loop (files_paths : list string) (documents : list Document)
  : M (list Document) :=
  match files_paths with
  | [] => ret documents
  | file_path :: rest =>
      if Str.endswith file_path ".pdf" then
        do docs <- lift (PyPDFLoader file_path);
        load_loop rest (documents ++ docs)
      else if Str.endswith file_path ".md" then
        do docs <- lift (UnstructuredMarkdownLoader file_path);
        load_loop rest (documents ++ docs)
      else if Str.endswith file_path ".txt" then
        do documents' <- load_text file_path documents;
        load_loop rest documents'
      else raise (ValueError ("Unsupported file type: " +:+ file_path))
  end.

Definition load_documents (files_paths : list string) : M (list Document) :=
  do documents <- load_loop files_paths [];
  exec print ("Loaded " +:+ Str.of_nat (length documents) +:+ " documents from "
              +:+ Str.of_nat (length files_paths) +:+ " files.");
  ret documents.

(** The separators the splitter tries when none is given: paragraph
    break, line break, space, and the empty separator. *)
Definition newline : string := String (ascii_of_nat 10) EmptyString.
Definition paragraph_break : string := newline +:+ newline.
Definition default_separators : list string :=
  [paragraph_break; newline; " "; ""].

Definition text_spliter (documents : list Document) : M (list Document) :=
  let chunks := split_documents 500 100 default_separators documents in
  exec print ("Split " +:+ Str.of_nat (length documents) +:+ " documents into "
              +:+ Str.of_nat (length chunks) +:+ " chunks.");
  ret chunks.

Definition process_files (files_paths : option (list string)) (overwrite : bool)
  : M (bool * string) :=
  try_except
    (do documents <- match files_paths with
                     | Some (f :: fs) => load_documents (f :: fs)
                     | _ => raise (ValueError
                              "Either files_path or directory_path must be provided.")
                     end;
     do chunks <- text_spliter documents;
     exec save_to_pinecone chunks overwrite;
     ret (true, "Files processed and saved to vector database successfully."))
    (fun e =>
       exec print ("Error processing files: " +:+ str e);
       ret (false, str e)).

End VectorDatabase.

(** ** The vocabulary of the specification *)

(** *** Chunks *)


(** The number of characters the source ranges of two consecutive chunks
    share, from their recorded start offsets. *)
Definition shared_range (earlier next : Document) : option Z :=
  match start_index earlier, start_index next with
  | Some i, Some j => Some (i + Z.of_nat (Str.len (page_content earlier)) - j)%Z
  | _, _ => None
  end.





(** *** Runs of the module *)

(** The service calls made between two states. *)
Definition new_calls (w w' : World) : list (service_call * option exn) :=
  drop (length (calls w)) (calls w').

Definition succeeded (c : service_call * option exn) : Prop := snd c = None.

(** None of the calls writes to the remote state. *)
Definition reads (new : list (service_call * option exn)) : Prop :=
  Forall (fun c => is_write (fst c) = false) new.

(** The environment fails none of the coming service calls. *)
Definition healthy (w : World) : Prop := Forall (fun f => f = None) (faults w).

(** The environment lets the next service call through. *)
Definition next_call_answers (w : World) : Prop := hd None (faults w) = None.

(** The environment lets the next [n] service calls through. *)
Definition answers (n : nat) (w : World) : Prop :=
  Forall (fun f => f = None) (take n (faults w)).

(** A ranking is in descending order when each record scores at least as
    high as the one after it. *)
Definition descending {A} (a b : A * Q) : Prop := (snd b <= snd a)%Q.

(** What [query_data] makes of the records the index store returned. *)
Definition selected {A} (results : list (A * Q)) (similarity_threshold : Q) (k : Z)
  : list (A * Q) :=
  match results with
  | [] => []
  | first :: _ =>
      if Qltb (snd first) similarity_threshold then []
      else slice_to k (sorted_desc results)
  end.

(** *** Properties of computations *)

(** A computation leaves a component of the state as it found it. *)
Definition preserves {X A : Type} (component : World -> X) (m : M A) : Prop :=
  forall w r w', m w = (r, w') -> component w' = component w.

(** The result of a computation does not depend on the state. *)
Definition state_independent {A} (m : M A) : Prop :=
  forall w1 w2, fst (m w1) = fst (m w2).

(** The shape of the calls a computation made: every call succeeded, or
    every call but the last did and the computation ended in what [fail]
    makes of the error of the last one. *)
Definition ends_in {A} (fail : exn -> outcome A)
    (new : list (service_call * option exn)) (r : outcome A) : Prop :=
  Forall succeeded new
  \/ exists before c e,
       new = before ++ [(c, Some e)] /\ Forall succeeded before /\ r = fail e.

Definition stops_at_failure {A} (fail : exn -> outcome A) (m : M A) : Prop :=
  forall w r w', m w = (r, w') ->
    exists new, calls w' = calls w ++ new /\ ends_in fail new r.

Definition only_reads {A} (m : M A) : Prop :=
  forall w r w', m w = (r, w') ->
    exists new, calls w' = calls w ++ new /\ reads new.

(** *** Inputs for examples *)

(** A state in which nothing has happened yet and no index exists. *)
Definition empty_world : World := mkWorld None ∅ 0 [] [] [].

(** A state in which the index exists and holds one record, and
    nothing else has happened. *)
Definition one_record_world (index_name text : string) : World :=
  mkWorld None (<[index_name := mkIndex 1536 [mkDocument text "note.txt" (Some 0%Z)]]> ∅)
    0 [] [] [].

(** The state of [one_record_world] with a service that fails the calls
    as [fs] says. *)
Definition failing_world (index_name text : string) (fs : list (option exn))
  : World :=
  set_faults fs (one_record_world index_name text).

Definition timed_out : exn := TransientServiceError NetworkTimeout "request timed out".

Definition new_chunk : Document := mkDocument "new text" "new.txt" (Some 0%Z).

(** The answer of a vector store that ranks nothing and ignores [k]:
    four records in no order, whatever is asked. *)
Definition example_answer : list (Document * Q) :=
  [(mkDocument "second" "b.txt" (Some 0%Z), (8 # 10)%Q);
   (mkDocument "first" "a.txt" (Some 0%Z), (9 # 10)%Q);
   (mkDocument "fourth" "d.txt" (Some 0%Z), (1 # 10)%Q);
   (mkDocument "third" "c.txt" (Some 0%Z), (3 # 4)%Q)].

Definition example_search (db : Handle) (query_text : string) (k : Z)
  : M (list (Document * Q)) :=
  ret example_answer.

(** A relevance score: 1 for the very text, 0 otherwise. *)
Definition exact_match (query_text text : string) : Q :=
  if String.eqb query_text text then 1%Q else 0%Q.

(** Files: every PDF and markdown file has one page; [broken.txt] cannot
    be read at all, [legacy.txt] decodes as Latin-1 and not as UTF-8,
    every other text file decodes as UTF-8; the text files are loaded by
    the langchain loader. *)
Definition example_pdf (file_path : string) : outcome (list Document) :=
  Ok [mkDocument "a page" file_path None].

Definition example_markdown (file_path : string) : outcome (list Document) :=
  Ok [mkDocument "a heading" file_path None].

Definition example_read (file_path : string) (enc : encoding) : outcome string :=
  if String.eqb file_path "broken.txt" then Raise (OtherError "Permission denied")
  else if String.eqb file_path "legacy.txt" then
    match enc with
    | utf_8 => Raise (UnicodeDecodeError "invalid continuation byte")
    | latin_1 => Ok "legacy text"
    end
  else Ok "plain text".

Definition example_text : string -> encoding -> outcome (list Document) :=
  langchain_text_loader example_read.

(** The scenario of section 8: fifty times the same sentence. *)
Definition fox_document : Document :=
  mkDocument (Str.repeat "The quick brown fox jumps over the lazy dog. " 50)
    "fox.txt" None.

(** *** Two statements of the specification, as it words them *)

(** The chunks [text_spliter] returns for one document. *)
Definition chunks_of (doc : Document) : list Document :=
  match fst (text_spliter [doc] empty_world) with
  | Ok chunks => chunks
  | Raise _ => []
  end.


(** Section 7 on index-state errors: a query while the target index does
    not exist (and no handle is held) ends in something else than the
    empty, successful result of a threshold miss. *)
Definition missing_index_claim (api_key : option string) (index_name : string)
    (relevance : string -> string -> Q) (w : World) : Prop :=
  _vector_db w = None ->
  indexes w !! index_name = None ->
  forall query_text similarity_threshold k,
    fst (query_data api_key index_name relevance query_text similarity_threshold k w)
    <> Ok [].

(** Section 7 on transient service errors, for one call [m] of the
    module started in [w]: when a call of a service has failed with a
    time-out or a rate limit, the caller receives this error as the
    failure of [m], which tells it that trying again may help. *)
Definition propagated_as_retryable {A} (m : M A) (w : World) : Prop :=
  forall c e,
    In (c, Some e) (new_calls w (snd (m w))) ->
    retryable e = true ->
    fst (m w) = Raise e.

(** The same for the two ingestion calls. *)
Definition transient_error_claim (api_key : option string) (index_name : string)
    (pdf md : string -> outcome (list Document))
    (text : string -> encoding -> outcome (list Document))
    (chunks : list Document) (files_paths : option (list string))
    (overwrite : bool) (w : World) : Prop :=
  propagated_as_retryable (save_to_pinecone api_key index_name chunks overwrite) w
  /\ propagated_as_retryable
       (process_files api_key index_name pdf md text files_paths overwrite) w.

(** *** Callers of the module *)




Section Callers.

Variable api_key : option string.
Variable index_name : string.
Variables pdf md : string -> outcome (list Document).
Variable text : string -> encoding -> outcome (list Document).
Variable relevance : string -> string -> Q.




End Callers.

(** *** Further properties of computations *)

(** A computation keeps a property of the state. *)
Definition keeps {A} (P : World -> Prop) (m : M A) : Prop :=
  forall w r w', P w -> m w = (r, w') -> P w'.

(** Every call a computation makes is of the kind [Q]. *)
Definition issues {A} (Q : service_call -> Prop) (m : M A) : Prop :=
  forall w r w', m w = (r, w') ->
    exists new, calls w' = calls w ++ new /\ Forall (fun c => Q (fst c)) new.

Definition is_delete (c : service_call) : bool :=
  match c with
  | DeleteIndex _ => true
  | _ => false
  end.

(** The index [name] is there, has dimension [dim], and its records
    start with [old]. *)
Definition holds_records (name : string) (dim : nat) (old : list Document)
    (w : World) : Prop :=
  exists ix,
    indexes w !! name = Some ix /\ dimension ix = dim /\ old `prefix_of` records ix.

(** The state [w] after the lines [lines] were printed, and nothing
    else happened. *)
Definition printed (lines : list string) (w : World) : World :=
  mkWorld (_vector_db w) (indexes w) (next_id w) (faults w) (calls w)
    (stdout w ++ lines).

(** A computation does nothing to the state but print. *)
Definition only_prints {A} (m : M A) : Prop :=
  forall w r w', m w = (r, w') -> exists lines, w' = printed lines w.

(** The exception is not a decoding error. *)
Definition not_decode_error (e : exn) : Prop :=
  match e with
  | UnicodeDecodeError _ => False
  | _ => True
  end.


(** A PDF loader that cannot read [damaged.pdf]. *)
Definition example_damaged_pdf (file_path : string) : outcome (list Document) :=
  if String.eqb file_path "damaged.pdf"
  then Raise (OtherError "EOF marker not found")
  else example_pdf file_path.


(** The index [name] holds no record: it is absent or empty. *)
Definition holds_nothing (name : string) (w : World) : Prop :=
  indexes w !! name = None
  \/ exists dim, indexes w !! name = Some (mkIndex dim []).


(** * Properties *)

(** ** Text primitives *)

Module StrFacts.

Lemma len_append (a b : string) : Str.len (a +:+ b) = Str.len a + Str.len b.
Proof. induction a as [|c a IH]; simpl; [reflexivity | now rewrite <- IH]. Qed.

Lemma lstrip_len (s : string) : Str.len (Str.lstrip s) <= Str.len s.
Proof.
  induction s as [|c s IH]; simpl; [lia|].
  destruct (Str.is_space c); simpl; lia.
Qed.

Lemma rstrip_len (s : string) : Str.len (Str.rstrip s) <= Str.len s.
Proof.
  induction s as [|c s IH]; simpl; [lia|].
  destruct (Str.is_empty (Str.rstrip s) && Str.is_space c); simpl;
    unfold Str.len in *; lia.
Qed.

Lemma strip_len (s : string) : Str.len (Str.strip s) <= Str.len s.
Proof.
  unfold Str.strip.
  etransitivity; [apply rstrip_len | apply lstrip_len].
Qed.

Lemma chars_len (s : string) : Forall (fun c => Str.len c = 1) (Str.chars s).
Proof. induction s; simpl; constructor; auto. Qed.

End StrFacts.

(** ** The splitter *)

Section SplitterFacts.

Variables (chunk_size chunk_overlap : nat).

Local Notation "'within' l" := (Forall (fun c => Str.len c <= chunk_size) l)
  (at level 10, l at level 9, only parsing).

Lemma total_len_app (l1 l2 : list string) :
  total_len (l1 ++ l2) = total_len l1 + total_len l2.
Proof. unfold total_len. now rewrite map_app, list_sum_app. Qed.

Lemma total_len_single (d : string) : total_len [d] = Str.len d.
Proof. unfold total_len; simpl; lia. Qed.

Lemma concat_len (pieces : list string) :
  Str.len (String.concat EmptyString pieces) = total_len pieces.
Proof.
  induction pieces as [|p [|q rest] IH].
  - reflexivity.
  - unfold total_len; simpl; lia.
  - change (String.concat EmptyString (p :: q :: rest))
      with (p +:+ String.concat EmptyString (q :: rest)).
    rewrite StrFacts.len_append, IH. reflexivity.
Qed.

Lemma emit_len (current_doc : list string) :
  Forall (fun c => Str.len c <= total_len current_doc) (emit current_doc).
Proof.
  unfold emit, join_docs.
  destruct (Str.is_empty _); constructor; [|constructor].
  rewrite <- concat_len. apply StrFacts.strip_len.
Qed.

Lemma emit_within (current_doc : list string) :
  total_len current_doc <= chunk_size -> within (emit current_doc).
Proof.
  intros H. eapply Forall_impl; [apply emit_len|].
  simpl. intros c Hc. lia.
Qed.

(** What is left after the pops fits the overlap, and the next piece
    fits behind it. *)
Lemma pop_front_spec (len_d : nat) (current_doc : list string) :
  let kept := pop_front chunk_size chunk_overlap len_d current_doc in
  total_len kept <= chunk_overlap
  /\ (total_len kept + len_d <= chunk_size \/ total_len kept = 0).
Proof.
  induction current_doc as [|p rest IH]; simpl.
  - split; [unfold total_len; simpl; lia | now right].
  - destruct (_ || _) eqn:E; [exact IH|].
    apply orb_false_elim in E as [E1 E2].
    apply Nat.ltb_ge in E1.
    apply andb_false_elim in E2 as [E2|E2].
    + apply Nat.ltb_ge in E2. split; [exact E1 | now left].
    + apply Nat.ltb_ge in E2. split; [exact E1 | right; lia].
Qed.


Lemma merge_loop_within (splits current_doc : list string) :
  within splits ->
  total_len current_doc <= chunk_size ->
  within (merge_loop chunk_size chunk_overlap splits current_doc).
Proof.
  revert current_doc.
  induction splits as [|d rest IH]; intros current_doc Hs Hc; simpl.
  - now apply emit_within.
  - apply Forall_cons in Hs as [Hd Hrest].
    destruct (chunk_size <? _) eqn:E.
    + destruct current_doc as [|p more].
      * apply IH; [exact Hrest|]. rewrite total_len_single. exact Hd.
      * apply Forall_app. split; [now apply emit_within|].
        apply IH; [exact Hrest|].
        rewrite total_len_app, total_len_single.
        pose proof (pop_front_spec (Str.len d) (p :: more)) as Hpop.
        cbv zeta in Hpop. destruct Hpop as [_ [H|H]]; lia.
    + apply Nat.ltb_ge in E. apply IH; [exact Hrest|].
      rewrite total_len_app, total_len_single. exact E.
Qed.

Lemma merge_splits_within (splits : list string) :
  within splits -> within (merge_splits chunk_size chunk_overlap splits).
Proof.
  intros H. apply merge_loop_within; [exact H|].
  unfold total_len; simpl; lia.
Qed.

Lemma split_loop_within (deeper : option (string -> list string))
    (splits good_splits : list string) :
  within good_splits ->
  (forall s, In s splits -> chunk_size <= Str.len s ->
             within (match deeper with
                     | None => [s]
                     | Some split_deeper => split_deeper s
                     end)) ->
  within (split_loop chunk_size chunk_overlap deeper splits good_splits).
Proof.
  revert good_splits.
  induction splits as [|s rest IH]; intros good Hgood Hdeep; simpl.
  - now apply merge_splits_within.
  - destruct (Str.len s <? chunk_size) eqn:E.
    + apply Nat.ltb_lt in E. apply IH.
      * apply Forall_app. split; [exact Hgood|].
        constructor; [lia | constructor].
      * intros s' Hin. apply Hdeep. now right.
    + apply Nat.ltb_ge in E.
      apply Forall_app. split; [now apply merge_splits_within|].
      apply Forall_app. split.
      * apply Hdeep; [now left | exact E].
      * apply IH; [constructor|].
        intros s' Hin. apply Hdeep. now right.
Qed.

Lemma character_splits (text : string) :
  Forall (fun c => Str.len c = 1) (split_text_with_regex EmptyString text).
Proof.
  unfold split_text_with_regex. simpl.
  rewrite List.Forall_forall. intros c Hin.
  apply List.filter_In in Hin as [Hin _].
  pose proof (StrFacts.chars_len text) as H.
  rewrite List.Forall_forall in H. now apply H.
Qed.

Lemma split_characters_within (text : string) :
  1 <= chunk_size ->
  within (split_loop chunk_size chunk_overlap None
            (split_text_with_regex EmptyString text) []).
Proof.
  intros Hsize. apply split_loop_within; [constructor|].
  intros s Hin _. constructor; [|constructor].
  pose proof (character_splits text) as H.
  rewrite List.Forall_forall in H. rewrite (H s Hin). exact Hsize.
Qed.

(** The ceiling: when the last separator is the empty one, so that a
    text can always be cut between two characters, no chunk is longer
    than [chunk_size]. *)
Lemma split_text_within (separators : list string) :
  1 <= chunk_size ->
  (exists coarser, separators = coarser ++ [EmptyString]) ->
  forall text, within (split_text chunk_size chunk_overlap separators text).
Proof.
  intros Hsize.
  induction separators as [|separator new_separators IH]; intros Hlast text.
  - constructor.
  - simpl. destruct new_separators as [|next more].
    + destruct Hlast as [coarser Hlast].
      assert (separator = EmptyString) as ->.
      { destruct coarser as [|c [|c' coarser]]; simpl in Hlast.
        - now inversion Hlast.
        - discriminate Hlast.
        - discriminate Hlast. }
      now apply split_characters_within.
    + assert (exists coarser, next :: more = coarser ++ [EmptyString]) as Hlast'.
      { destruct Hlast as [[|c coarser] Hlast]; simpl in Hlast.
        - discriminate Hlast.
        - exists coarser. now inversion Hlast. }
      destruct (Str.is_empty separator) eqn:Hempty.
      * apply String.eqb_eq in Hempty. subst separator.
        now apply split_characters_within.
      * destruct (Str.contains separator text).
        -- apply split_loop_within; [constructor|].
           intros s _ _. now apply IH.
        -- now apply IH.
Qed.

Lemma create_documents_content (text src : string) (index previous : Z)
    (chunks : list string) :
  map page_content (create_documents chunk_overlap text src index previous chunks)
  = chunks.
Proof.
  revert index previous.
  induction chunks as [|c rest IH]; intros index previous; simpl.
  - reflexivity.
  - now rewrite IH.
Qed.

Lemma split_documents_within (separators : list string)
    (documents : list Document) :
  1 <= chunk_size ->
  (exists coarser, separators = coarser ++ [EmptyString]) ->
  Forall (fun chunk => Str.len (page_content chunk) <= chunk_size)
    (split_documents chunk_size chunk_overlap separators documents).
Proof.
  intros Hsize Hlast. unfold split_documents.
  rewrite List.Forall_forall. intros chunk Hin.
  apply in_flat_map in Hin as (doc & _ & Hin).
  unfold split_document in Hin.
  pose proof (split_text_within separators Hsize Hlast (page_content doc)) as H.
  rewrite <- (create_documents_content (page_content doc) (source doc) 0 0) in H.
  rewrite List.Forall_map in H.
  rewrite List.Forall_forall in H. now apply H.
Qed.

(** *** The overlap the merge creates *)










End SplitterFacts.

(** C5. Every chunk the splitter returns, for any list of documents, has
    a text of at most [chunk_size] = 500 characters (and the splitter
    always returns). *)
Theorem text_spliter_chunk_size (documents : list Document) (w : World) :
  exists chunks w',
    text_spliter documents w = (Ok chunks, w')
    /\ Forall (fun chunk => Str.len (page_content chunk) <= 500) chunks.
Proof.
  eexists. eexists. split; [reflexivity|].
  apply split_documents_within; [lia|].
  now exists [paragraph_break; newline; " "].
Qed.


Example fox_chunks_share_98 :
  match chunks_of fox_document with
  | earlier :: next :: _ => shared_range earlier next
  | _ => None
  end = Some 98%Z.
Proof. vm_compute. reflexivity. Qed.


(** ** The monad *)

Section MonadFacts.

Context {X : Type} (component : World -> X).

Lemma preserves_ret {A} (a : A) : preserves component (ret a).
Proof. intros w r w' [= _ <-]. reflexivity. Qed.

Lemma preserves_raise {A} (e : exn) : preserves component (@raise A e).
Proof. intros w r w' [= _ <-]. reflexivity. Qed.

Lemma preserves_lift {A} (r : outcome A) : preserves component (lift r).
Proof. intros w r' w' [= _ <-]. reflexivity. Qed.

Lemma preserves_bind {A B} (m : M A) (f : A -> M B) :
  preserves component m ->
  (forall a, preserves component (f a)) ->
  preserves component (bind m f).
Proof.
  intros Hm Hf w r w' H. unfold bind in H.
  destruct (m w) as [[a|e] w1] eqn:E.
  - rewrite (Hf a _ _ _ H). exact (Hm _ _ _ E).
  - injection H as _ <-. exact (Hm _ _ _ E).
Qed.

Lemma preserves_try_except {A} (m : M A) (handler : exn -> M A) :
  preserves component m ->
  (forall e, preserves component (handler e)) ->
  preserves component (try_except m handler).
Proof.
  intros Hm Hh w r w' H. unfold try_except in H.
  destruct (m w) as [[a|e] w1] eqn:E.
  - injection H as _ <-. exact (Hm _ _ _ E).
  - rewrite (Hh e _ _ _ H). exact (Hm _ _ _ E).
Qed.

Lemma preserves_service {A} (c : service_call)
    (answer : World -> outcome A * World) :
  (forall fs w, component (set_faults fs w) = component w) ->
  (forall c e w, component (log_call c e w) = component w) ->
  preserves component answer ->
  preserves component (service c answer).
Proof.
  intros Hfaults Hlog Hanswer w r w' H. unfold service in H.
  assert (forall fs, (let '(r0, w0) := answer (set_faults fs w) in
                      (r0, log_call c (error_of r0) w0)) = (r, w') ->
                     component w' = component w) as Hrun.
  { intros fs Hfs. destruct (answer (set_faults fs w)) as [r0 w0] eqn:E.
    injection Hfs as _ <-.
    rewrite Hlog, (Hanswer _ _ _ E). apply Hfaults. }
  destruct (faults w) as [|[e|] fs].
  - exact (Hrun _ H).
  - injection H as _ <-. now rewrite Hlog, Hfaults.
  - exact (Hrun _ H).
Qed.

End MonadFacts.

Lemma bind_assoc {A B C} (m : M A) (f : A -> M B) (g : B -> M C) (w : World) :
  bind (bind m f) g w = bind m (fun a => bind (f a) g) w.
Proof. unfold bind. destruct (m w) as [[a|e] w1]; reflexivity. Qed.

Lemma bind_ext {A B} (m : M A) (f g : A -> M B) (w : World) :
  (forall a w', f a w' = g a w') -> bind m f w = bind m g w.
Proof.
  intros H. unfold bind. destruct (m w) as [[a|e] w1]; [apply H | reflexivity].
Qed.

Lemma preserves_print {X} (component : World -> X) (line : string) :
  (forall l w, component (log_line l w) = component w) ->
  preserves component (print line).
Proof. intros Hc w r w' [= _ <-]. apply Hc. Qed.

Lemma preserves_get_global {X} (component : World -> X) :
  preserves component get_global.
Proof. intros w r w' [= _ <-]. reflexivity. Qed.

Lemma preserves_set_global {X} (component : World -> X) (db : option Handle) :
  (forall d w, component (set_vector_db d w) = component w) ->
  preserves component (set_global db).
Proof. intros Hc w r w' [= _ <-]. apply Hc. Qed.

Lemma ends_in_nil {A} (fail : exn -> outcome A) (r : outcome A) :
  ends_in fail [] r.
Proof. left. constructor. Qed.

Lemma stops_quiet {A} (fail : exn -> outcome A) (m : M A) :
  preserves calls m -> stops_at_failure fail m.
Proof.
  intros Hm w r w' H. exists []. rewrite app_nil_r.
  split; [exact (Hm _ _ _ H) | apply ends_in_nil].
Qed.

Lemma succeeded_not_failed (new : list (service_call * option exn))
    (c : service_call) (e : exn) :
  Forall succeeded new -> ~ In (c, Some e) new.
Proof.
  intros Hall Hin. rewrite List.Forall_forall in Hall.
  specialize (Hall _ Hin). discriminate Hall.
Qed.

(** A computation that returned made no failing call. *)
Lemma ends_in_ok {A} (new : list (service_call * option exn)) (a : A) :
  ends_in Raise new (Ok a) -> Forall succeeded new.
Proof.
  intros [H|(before & c & e & _ & _ & H)]; [exact H | discriminate H].
Qed.

Lemma ends_in_app {A} (fail : exn -> outcome A)
    (new1 new2 : list (service_call * option exn)) (r : outcome A) :
  Forall succeeded new1 -> ends_in fail new2 r -> ends_in fail (new1 ++ new2) r.
Proof.
  intros H1 [H2|(before & c & e & -> & Hb & Hr)].
  - left. apply Forall_app. now split.
  - right. exists (new1 ++ before), c, e. rewrite app_assoc.
    split; [reflexivity|]. split; [|exact Hr].
    apply Forall_app. now split.
Qed.

Lemma stops_bind {A B} (m : M A) (f : A -> M B) :
  stops_at_failure Raise m ->
  (forall a, stops_at_failure Raise (f a)) ->
  stops_at_failure Raise (bind m f).
Proof.
  intros Hm Hf w r w' H. unfold bind in H.
  destruct (m w) as [[a|e] w1] eqn:E.
  - destruct (Hm _ _ _ E) as (new1 & Hc1 & He1).
    destruct (Hf a _ _ _ H) as (new2 & Hc2 & He2).
    exists (new1 ++ new2). rewrite Hc2, Hc1, app_assoc.
    split; [reflexivity|].
    apply ends_in_app; [now apply ends_in_ok with a | exact He2].
  - injection H as <- <-.
    destruct (Hm _ _ _ E) as (new1 & Hc1 & [He1|(before & c & e' & -> & Hb & Hr)]).
    + exists new1. split; [exact Hc1 | now left].
    + exists (before ++ [(c, Some e')]). split; [exact Hc1|].
      injection Hr as ->. right. now exists before, c, e'.
Qed.

Lemma stops_service {A} (c : service_call) (answer : World -> outcome A * World) :
  preserves calls answer ->
  stops_at_failure Raise (service c answer).
Proof.
  intros Hanswer w r w' H. unfold service in H.
  assert (forall fs, (let '(r0, w0) := answer (set_faults fs w) in
                      (r0, log_call c (error_of r0) w0)) = (r, w') ->
            exists new, calls w' = calls w ++ new /\ ends_in Raise new r) as Hrun.
  { intros fs Hfs. destruct (answer (set_faults fs w)) as [r0 w0] eqn:E.
    injection Hfs as <- <-.
    exists [(c, error_of r0)]. simpl. rewrite (Hanswer _ _ _ E). simpl.
    split; [reflexivity|].
    destruct r0 as [a|e]; simpl.
    - left. repeat constructor.
    - right. exists [], c, e. repeat split. constructor. }
  destruct (faults w) as [|[e|] fs].
  - exact (Hrun _ H).
  - injection H as <- <-. exists [(c, Some e)]. simpl.
    split; [reflexivity|]. right. exists [], c, e. repeat split. constructor.
  - exact (Hrun _ H).
Qed.

Lemma only_reads_quiet {A} (m : M A) : preserves calls m -> only_reads m.
Proof.
  intros Hm w r w' H. exists []. rewrite app_nil_r.
  split; [exact (Hm _ _ _ H) | constructor].
Qed.

Lemma only_reads_bind {A B} (m : M A) (f : A -> M B) :
  only_reads m -> (forall a, only_reads (f a)) -> only_reads (bind m f).
Proof.
  intros Hm Hf w r w' H. unfold bind in H.
  destruct (m w) as [[a|e] w1] eqn:E.
  - destruct (Hm _ _ _ E) as (new1 & Hc1 & Hr1).
    destruct (Hf a _ _ _ H) as (new2 & Hc2 & Hr2).
    exists (new1 ++ new2). rewrite Hc2, Hc1, app_assoc.
    split; [reflexivity|]. apply Forall_app. now split.
  - injection H as _ <-. exact (Hm _ _ _ E).
Qed.

Lemma only_reads_service {A} (c : service_call)
    (answer : World -> outcome A * World) :
  is_write c = false -> preserves calls answer -> only_reads (service c answer).
Proof.
  intros Hc Hanswer w r w' H. unfold service in H.
  assert (forall fs, (let '(r0, w0) := answer (set_faults fs w) in
                      (r0, log_call c (error_of r0) w0)) = (r, w') ->
            exists new, calls w' = calls w ++ new /\ reads new) as Hrun.
  { intros fs Hfs. destruct (answer (set_faults fs w)) as [r0 w0] eqn:E.
    injection Hfs as _ <-.
    exists [(c, error_of r0)]. simpl. rewrite (Hanswer _ _ _ E). simpl.
    split; [reflexivity|]. repeat constructor. exact Hc. }
  destruct (faults w) as [|[e|] fs].
  - exact (Hrun _ H).
  - injection H as _ <-. exists [(c, Some e)]. simpl.
    split; [reflexivity|]. repeat constructor. exact Hc.
  - exact (Hrun _ H).
Qed.

(** What the [new_calls] of a run are, and what a failed call among them
    tells. *)
Lemma new_calls_app (w w' : World) (new : list (service_call * option exn)) :
  calls w' = calls w ++ new -> new_calls w w' = new.
Proof. intros H. unfold new_calls. rewrite H. apply drop_app_length. Qed.

Lemma failed_call_is_last {A} (fail : exn -> outcome A)
    (new : list (service_call * option exn)) (r : outcome A)
    (c : service_call) (e : exn) :
  ends_in fail new r ->
  In (c, Some e) new ->
  r = fail e
  /\ exists before, new = before ++ [(c, Some e)] /\ Forall succeeded before.
Proof.
  intros [Hall|(before & c' & e' & -> & Hb & Hr)] Hin.
  - now apply succeeded_not_failed in Hin.
  - apply in_app_or in Hin as [Hin|[Hin|[]]].
    + now apply succeeded_not_failed in Hin.
    + injection Hin as <- <-. split; [exact Hr|]. now exists before.
Qed.

(** ** Ranking *)

Section RankingFacts.

Context {A : Type}.

Lemma insert_desc_perm (x : A * Q) (l : list (A * Q)) :
  Permutation (insert_desc x l) (x :: l).
Proof.
  induction l as [|y rest IH]; simpl.
  - reflexivity.
  - destruct (Qle_bool (snd y) (snd x)); [reflexivity|].
    rewrite IH. apply perm_swap.
Qed.

Lemma sorted_desc_perm (l : list (A * Q)) : Permutation (sorted_desc l) l.
Proof.
  induction l as [|x rest IH]; simpl.
  - reflexivity.
  - rewrite insert_desc_perm. now constructor.
Qed.

Lemma insert_desc_hd (x y : A * Q) (l : list (A * Q)) :
  descending y x -> HdRel descending y l -> HdRel descending y (insert_desc x l).
Proof.
  intros Hyx Hl. destruct l as [|z rest]; simpl.
  - now constructor.
  - destruct (Qle_bool (snd z) (snd x)); constructor.
    + exact Hyx.
    + now inversion Hl.
Qed.

Lemma insert_desc_sorted (x : A * Q) (l : list (A * Q)) :
  Sorted descending l -> Sorted descending (insert_desc x l).
Proof.
  induction l as [|y rest IH]; intros Hs; simpl.
  - repeat constructor.
  - destruct (Qle_bool (snd y) (snd x)) eqn:E.
    + apply Qle_bool_iff in E. constructor; [exact Hs|]. now constructor.
    + assert (descending y x) as Hyx.
      { unfold descending. apply Qlt_le_weak, Qnot_le_lt.
        intros H. apply Qle_bool_iff in H. congruence. }
      inversion Hs; subst. constructor; [now apply IH|].
      now apply insert_desc_hd.
Qed.

Lemma sorted_desc_sorted (l : list (A * Q)) : Sorted descending (sorted_desc l).
Proof.
  induction l as [|x rest IH]; simpl.
  - constructor.
  - now apply insert_desc_sorted.
Qed.

(** The head of a ranking has the highest score. *)
Lemma sorted_desc_head (l : list (A * Q)) (first : A * Q) (rest : list (A * Q)) :
  sorted_desc l = first :: rest ->
  forall x, In x l -> (snd x <= snd first)%Q.
Proof.
  intros Hl x Hin.
  assert (In x (first :: rest)) as [<-|Hin'].
  { rewrite <- Hl. eapply Permutation_in; [|exact Hin].
    symmetry. apply sorted_desc_perm. }
  - apply Qle_refl.
  - pose proof (sorted_desc_sorted l) as Hs. rewrite Hl in Hs.
    apply Sorted_StronglySorted in Hs.
    + apply StronglySorted_inv in Hs as [_ Hall].
      rewrite List.Forall_forall in Hall. exact (Hall _ Hin').
    + intros a b c Hab Hbc. unfold descending in *. eapply Qle_trans; eauto.
Qed.

Lemma firstn_In (n : nat) (l : list A) (x : A) : In x (firstn n l) -> In x l.
Proof.
  intros H. rewrite <- (firstn_skipn n l). apply in_or_app. now left.
Qed.

Lemma slice_to_nonneg (k : Z) (l : list A) :
  (0 <= k)%Z -> slice_to k l = firstn (Z.to_nat k) l.
Proof.
  intros Hk. unfold slice_to.
  destruct (0 <=? k)%Z eqn:E; [reflexivity|].
  apply Z.leb_gt in E. lia.
Qed.

End RankingFacts.

(** ** The module *)

Section VectorDatabaseFacts.

Variable PINECONE_API_KEY : option string.
Variable PINECONE_INDEX_NAME : string.
Variable PyPDFLoader : string -> outcome (list Document).
Variable UnstructuredMarkdownLoader : string -> outcome (list Document).
Variable TextLoader : string -> encoding -> outcome (list Document).
Variable relevance : string -> string -> Q.

Lemma run_service {A} (c : service_call) (answer : World -> outcome A * World)
    (w : World) :
  next_call_answers w ->
  service c answer w
  = (let '(r, w') := answer (set_faults (tl (faults w)) w) in
     (r, log_call c (error_of r) w')).
Proof.
  unfold next_call_answers, service.
  destruct (faults w) as [|[e|] fs]; simpl; intros H;
    [reflexivity | discriminate H | reflexivity].
Qed.

(** *** Frames *)

Ltac answer_frame :=
  let H := fresh "H" in
  intros ? ? ? H;
  repeat match type of H with
         | context [match ?x with _ => _ end] => destruct x
         end;
  injection H as _ <-; reflexivity.

Ltac frame :=
  repeat first
    [ apply preserves_ret
    | apply preserves_raise
    | apply preserves_lift
    | apply preserves_get_global
    | apply preserves_print; intros; reflexivity
    | apply preserves_set_global; intros; reflexivity
    | apply preserves_service; [intros; reflexivity | intros; reflexivity | answer_frame]
    | apply preserves_bind; [|intros ?]
    | apply preserves_try_except; [|intros ?]
    | match goal with
      | |- preserves _ (if ?b then _ else _) => destruct b
      | |- preserves _ (match ?x with _ => _ end) => destruct x
      end ].

Lemma get_vector_db_frame :
  preserves indexes (get_vector_db PINECONE_API_KEY PINECONE_INDEX_NAME).
Proof.
  unfold get_vector_db, list_indexes, from_existing_index, describe_index.
  frame. intros w r w' [= _ <-]. reflexivity.
Qed.

Lemma get_vector_db_only_reads :
  only_reads (get_vector_db PINECONE_API_KEY PINECONE_INDEX_NAME).
Proof.
  unfold get_vector_db, list_indexes, from_existing_index, describe_index.
  apply only_reads_bind; [apply only_reads_quiet; frame|]. intros db.
  apply only_reads_bind; [|intros _; apply only_reads_quiet; frame].
  destruct db; [apply only_reads_quiet; frame|].
  destruct (api_key_set PINECONE_API_KEY); [|apply only_reads_quiet; frame].
  apply only_reads_bind; [apply only_reads_service; [reflexivity | answer_frame]|].
  intros names.
  destruct (bool_decide _); [|apply only_reads_quiet; frame].
  apply only_reads_bind; [|intros h; apply only_reads_quiet; frame].
  apply only_reads_bind; [apply only_reads_service; [reflexivity | answer_frame]|].
  intros _. apply only_reads_quiet. intros w r w' [= _ <-]. reflexivity.
Qed.

Lemma query_data_frame (query_text : string) (similarity_threshold : Q) (k : Z) :
  preserves indexes
    (query_data PINECONE_API_KEY PINECONE_INDEX_NAME relevance
       query_text similarity_threshold k).
Proof.
  unfold query_data, query_data_on. apply preserves_bind; [apply get_vector_db_frame|].
  intros db. unfold similarity_search_with_relevance_scores, embed_query, query_index.
  frame.
Qed.

Lemma load_loop_quiet (files_paths : list string) (documents : list Document) :
  preserves calls
    (load_loop PyPDFLoader UnstructuredMarkdownLoader TextLoader files_paths documents).
Proof.
  revert documents.
  induction files_paths as [|file_path rest IH]; intros documents; simpl.
  - frame.
  - unfold load_text. frame; apply IH.
Qed.

Lemma load_documents_quiet (files_paths : list string) :
  preserves calls
    (load_documents PyPDFLoader UnstructuredMarkdownLoader TextLoader files_paths).
Proof.
  unfold load_documents. apply preserves_bind; [apply load_loop_quiet|].
  intros documents. frame.
Qed.

Lemma text_spliter_quiet (documents : list Document) :
  preserves calls (text_spliter documents).
Proof. unfold text_spliter. frame. Qed.

(** *** Failing service calls *)

Ltac stops :=
  repeat first
    [ apply stops_service; answer_frame
    | apply stops_quiet; solve [frame]
    | apply stops_bind; [|intros ?]
    | match goal with
      | |- stops_at_failure _ (if ?b then _ else _) => destruct b
      end ].

Lemma new_handle_quiet (name : string) : preserves calls (new_handle name).
Proof. intros w r w' [= _ <-]. reflexivity. Qed.

Lemma from_documents_stops (chunks : list Document) (name : string) :
  stops_at_failure Raise (from_documents chunks name).
Proof.
  unfold from_documents, describe_index, embed_documents, upsert.
  apply stops_bind; [stops|]. intros _.
  apply stops_bind; [apply stops_quiet, new_handle_quiet|]. intros h.
  stops.
Qed.

Lemma save_to_pinecone_stops (chunks : list Document) (overwrite : bool) :
  stops_at_failure Raise
    (save_to_pinecone PINECONE_API_KEY PINECONE_INDEX_NAME chunks overwrite).
Proof.
  unfold save_to_pinecone.
  destruct (negb (api_key_set PINECONE_API_KEY)).
  { apply stops_quiet. frame. }
  unfold list_indexes, delete_index, create_index.
  apply stops_bind; [stops|]. intros _.
  apply stops_bind; [stops|]. intros names.
  apply stops_bind; [stops|]. intros _.
  apply stops_bind; [apply from_documents_stops|]. intros h.
  stops.
Qed.

Lemma process_files_stops (files_paths : option (list string)) (overwrite : bool) :
  stops_at_failure (fun e => Ok (false, str e))
    (process_files PINECONE_API_KEY PINECONE_INDEX_NAME
       PyPDFLoader UnstructuredMarkdownLoader TextLoader files_paths overwrite).
Proof.
  intros w r w' H. unfold process_files, try_except in H.
  match type of H with
  | (match ?body w with _ => _ end) = _ =>
      assert (stops_at_failure Raise body) as Hbody;
        [| destruct (body w) as [[a|e] w1] eqn:E ]
  end.
  - apply stops_bind.
    + destruct files_paths as [[|f fs]|].
      * apply stops_quiet. frame.
      * apply stops_quiet, load_documents_quiet.
      * apply stops_quiet. frame.
    + intros documents.
      apply stops_bind; [apply stops_quiet, text_spliter_quiet|]. intros chunks.
      apply stops_bind; [apply save_to_pinecone_stops|]. intros _.
      apply stops_quiet. frame.
  - injection H as <- <-.
    destruct (Hbody _ _ _ E) as (new & Hcalls & Hends).
    exists new. split; [exact Hcalls|]. left. now apply ends_in_ok with a.
  - unfold bind, print, ret in H. injection H as <- <-.
    destruct (Hbody _ _ _ E) as (new & Hcalls & Hends).
    exists new. split; [exact Hcalls|].
    destruct Hends as [Hall|(before & c & e' & -> & Hb & [= ->])].
    + now left.
    + right. now exists before, c, e'.
Qed.

(** C3, amended.  In every ingestion call, when a call of the embedding
    or index service fails with an error (a time-out or a rate limit
    among them), the failed call is the last call made, after calls that
    all succeeded: nothing is tried a second time.  [save_to_pinecone]
    raises that very error, so that its caller may retry;
    [process_files] does not raise it: it returns [(False, str(e))], the
    message of the error and nothing of its kind. *)
Theorem service_error_propagates (chunks : list Document)
    (files_paths : option (list string)) (overwrite : bool)
    (c : service_call) (e : exn) (w w' : World) :
  (forall r,
      save_to_pinecone PINECONE_API_KEY PINECONE_INDEX_NAME chunks overwrite w
      = (r, w') ->
      In (c, Some e) (new_calls w w') ->
      r = Raise e
      /\ exists before,
          new_calls w w' = before ++ [(c, Some e)] /\ Forall succeeded before)
  /\ (forall r,
        process_files PINECONE_API_KEY PINECONE_INDEX_NAME
          PyPDFLoader UnstructuredMarkdownLoader TextLoader files_paths overwrite w
        = (r, w') ->
        In (c, Some e) (new_calls w w') ->
        r = Ok (false, str e)
        /\ exists before,
            new_calls w w' = before ++ [(c, Some e)] /\ Forall succeeded before).
Proof.
  split; intros r Hrun Hin.
  - destruct (save_to_pinecone_stops chunks overwrite _ _ _ Hrun)
      as (new & Hcalls & Hends).
    rewrite (new_calls_app _ _ _ Hcalls) in *.
    exact (failed_call_is_last _ _ _ _ _ Hends Hin).
  - destruct (process_files_stops files_paths overwrite _ _ _ Hrun)
      as (new & Hcalls & Hends).
    rewrite (new_calls_app _ _ _ Hcalls) in *.
    exact (failed_call_is_last _ _ _ _ _ Hends Hin).
Qed.

(** C1. Whenever the handle is available and the vector store, whatever
    it is, answers the search with [results], in any order and of any
    length: if there are none, or the score of the first of them is below
    the threshold, [query_data] returns the empty list, as a value and
    not as an error; otherwise it returns the records the store returned,
    sorted by descending score and cut to [k] (Python's [[:k]]: the
    first [k] records, hence at most [k], for every [k] that is not
    negative). *)
Theorem query_data_threshold
    (search : Handle -> string -> Z -> M (list (Document * Q)))
    (query_text : string) (similarity_threshold : Q)
    (k : Z) (w w1 w2 : World) (db : Handle) (results : list (Document * Q)) :
  get_vector_db PINECONE_API_KEY PINECONE_INDEX_NAME w = (Ok (Some db), w1) ->
  search db query_text k w1 = (Ok results, w2) ->
  (results = []
   \/ (exists first rest,
         results = first :: rest /\ (snd first < similarity_threshold)%Q) ->
   query_data_on PINECONE_API_KEY PINECONE_INDEX_NAME search
     query_text similarity_threshold k w
   = (Ok [], log_line "Unable to find matching results." w2))
  /\ (forall first rest,
        results = first :: rest ->
        (similarity_threshold <= snd first)%Q ->
        exists ranked,
          Permutation ranked results
          /\ Sorted descending ranked
          /\ query_data_on PINECONE_API_KEY PINECONE_INDEX_NAME search
               query_text similarity_threshold k w
             = (Ok (slice_to k ranked), w2)
          /\ ((0 <= k)%Z ->
              slice_to k ranked = firstn (Z.to_nat k) ranked
              /\ length (slice_to k ranked) <= Z.to_nat k)).
Proof.
  intros Hdb Hsearch.
  assert (query_data_on PINECONE_API_KEY PINECONE_INDEX_NAME search
            query_text similarity_threshold k w
          = if no_match results similarity_threshold
            then (Ok [], log_line "Unable to find matching results." w2)
            else (Ok (slice_to k (sorted_desc results)), w2)) as Hrun.
  { unfold query_data_on. unfold bind at 1. rewrite Hdb.
    unfold bind at 1. rewrite Hsearch.
    destruct (no_match results similarity_threshold); reflexivity. }
  split.
  - intros [->|(first & rest & -> & Hlow)]; rewrite Hrun; simpl; [reflexivity|].
    unfold Qltb.
    destruct (Qle_bool similarity_threshold (snd first)) eqn:E; [|reflexivity].
    apply Qle_bool_iff in E. now apply Qle_not_lt in E.
  - intros first rest -> Hhigh. exists (sorted_desc (first :: rest)).
    split; [apply sorted_desc_perm|]. split; [apply sorted_desc_sorted|].
    split.
    2:{ intros Hk. rewrite (slice_to_nonneg _ _ Hk).
        split; [reflexivity | apply firstn_le_length]. }
    rewrite Hrun. simpl no_match. unfold Qltb.
    apply Qle_bool_iff in Hhigh. now rewrite Hhigh.
Qed.

(** C2, amended.  A query while no handle is held and none can be made,
    because the API key is not set or the target index does not exist,
    raises nothing: it returns the empty list, the very value of a
    threshold miss, after printing that no vector database is available;
    it changes nothing remotely and holds no handle afterwards. *)
Theorem query_without_index (query_text : string) (similarity_threshold : Q)
    (k : Z) (w : World) :
  _vector_db w = None ->
  api_key_set PINECONE_API_KEY = false
  \/ (next_call_answers w /\ indexes w !! PINECONE_INDEX_NAME = None) ->
  exists w',
    query_data PINECONE_API_KEY PINECONE_INDEX_NAME relevance
      query_text similarity_threshold k w = (Ok [], w')
    /\ last (stdout w')
       = Some "No vector database available. Please create one first."
    /\ indexes w' = indexes w
    /\ _vector_db w' = None.
Proof.
  intros Hdb Hcase.
  destruct w as [db ix nid fs cs out]. simpl in Hdb. subst db.
  unfold query_data, query_data_on, get_vector_db, bind, get_global. simpl.
  destruct (api_key_set PINECONE_API_KEY) eqn:Hkey.
  - destruct Hcase as [Hcase|[Hanswers Habsent]]; [discriminate Hcase|].
    simpl in Habsent. unfold next_call_answers in Hanswers. simpl in Hanswers.
    unfold list_indexes, service. simpl.
    destruct fs as [|[e|] fs']; [|discriminate Hanswers|]; simpl;
      (rewrite bool_decide_eq_false_2 by now apply not_elem_of_dom);
      simpl; (eexists; split; [reflexivity|]); simpl;
      (split; [apply last_snoc|]); now split.
  - simpl. eexists. split; [reflexivity|]. simpl.
    split; [apply last_snoc|]. now split.
Qed.

(** *** The loader *)

Lemma txt_is_not_pdf_or_md (file_path : string) :
  Str.endswith file_path ".txt" = true ->
  Str.endswith file_path ".pdf" = false /\ Str.endswith file_path ".md" = false.
Proof.
  unfold Str.endswith. generalize (String.rev file_path) as r.
  change (String.rev ".txt") with "txt.".
  change (String.rev ".pdf") with "fdp.".
  change (String.rev ".md") with "dm.".
  intros [|a r]; cbn [String.prefix]; [discriminate|].
  destruct (ascii_dec "t" a) as [<-|Hne]; [|discriminate].
  intros _. split; reflexivity.
Qed.

Lemma load_loop_txt (file_path : string) (rest : list string)
    (documents : list Document) (w : World) :
  Str.endswith file_path ".txt" = true ->
  load_loop PyPDFLoader UnstructuredMarkdownLoader TextLoader
    (file_path :: rest) documents w
  = bind (load_text TextLoader file_path documents)
      (load_loop PyPDFLoader UnstructuredMarkdownLoader TextLoader rest) w.
Proof.
  intros Htxt. destruct (txt_is_not_pdf_or_md _ Htxt) as [Hpdf Hmd].
  simpl. now rewrite Hpdf, Hmd, Htxt.
Qed.

Lemma load_loop_app (before after : list string) (documents : list Document)
    (w : World) :
  load_loop PyPDFLoader UnstructuredMarkdownLoader TextLoader
    (before ++ after) documents w
  = bind (load_loop PyPDFLoader UnstructuredMarkdownLoader TextLoader before documents)
      (load_loop PyPDFLoader UnstructuredMarkdownLoader TextLoader after) w.
Proof.
  revert documents w.
  induction before as [|file_path rest IH]; intros documents w.
  - reflexivity.
  - simpl.
    destruct (Str.endswith file_path ".pdf");
      [|destruct (Str.endswith file_path ".md");
        [|destruct (Str.endswith file_path ".txt")]].
    + rewrite bind_assoc. apply bind_ext. intros docs w1. apply IH.
    + rewrite bind_assoc. apply bind_ext. intros docs w1. apply IH.
    + rewrite bind_assoc. apply bind_ext. intros docs w1. apply IH.
    + reflexivity.
Qed.

Lemma load_text_state_independent (file_path : string) (documents : list Document) :
  state_independent (load_text TextLoader file_path documents).
Proof.
  intros w1 w2. unfold load_text, try_except, bind, lift, ret, raise, print.
  destruct (TextLoader file_path utf_8) as [docs|[]]; try reflexivity.
  destruct (TextLoader file_path latin_1); reflexivity.
Qed.

Lemma load_loop_state_independent (files_paths : list string)
    (documents : list Document) :
  state_independent
    (load_loop PyPDFLoader UnstructuredMarkdownLoader TextLoader files_paths documents).
Proof.
  revert documents.
  induction files_paths as [|file_path rest IH]; intros documents w1 w2.
  - reflexivity.
  - simpl.
    destruct (Str.endswith file_path ".pdf");
      [|destruct (Str.endswith file_path ".md");
        [|destruct (Str.endswith file_path ".txt")]].
    + unfold bind, lift.
      destruct (PyPDFLoader file_path); [apply IH | reflexivity].
    + unfold bind, lift.
      destruct (UnstructuredMarkdownLoader file_path); [apply IH | reflexivity].
    + unfold bind.
      pose proof (load_text_state_independent file_path documents w1 w2) as Htext.
      destruct (load_text TextLoader file_path documents w1) as [[d1|e1] s1],
               (load_text TextLoader file_path documents w2) as [[d2|e2] s2];
        simpl in Htext; try discriminate Htext.
      * injection Htext as <-. apply IH.
      * exact Htext.
    + reflexivity.
Qed.

Lemma load_documents_result (files_paths : list string) (w : World) :
  fst (load_documents PyPDFLoader UnstructuredMarkdownLoader TextLoader files_paths w)
  = fst (load_loop PyPDFLoader UnstructuredMarkdownLoader TextLoader files_paths [] w).
Proof.
  unfold load_documents, bind.
  destruct (load_loop _ _ _ files_paths [] w) as [[docs|e] w1]; reflexivity.
Qed.

(** C9. A path whose extension is none of [.pdf], [.md] and [.txt] makes
    the whole call fail: no list of documents is returned, whatever was
    read from the files before it; and when those files were read
    without an error, the call raises
    [ValueError("Unsupported file type: ...")] for that path. *)
Theorem unsupported_extension_aborts (before after : list string)
    (file_path : string) (w : World) :
  Str.endswith file_path ".pdf" = false ->
  Str.endswith file_path ".md" = false ->
  Str.endswith file_path ".txt" = false ->
  (exists e w',
      load_documents PyPDFLoader UnstructuredMarkdownLoader TextLoader
        (before ++ file_path :: after) w = (Raise e, w'))
  /\ (forall documents w1,
        load_loop PyPDFLoader UnstructuredMarkdownLoader TextLoader before [] w
        = (Ok documents, w1) ->
        load_documents PyPDFLoader UnstructuredMarkdownLoader TextLoader
          (before ++ file_path :: after) w
        = (Raise (ValueError ("Unsupported file type: " +:+ file_path)), w1)).
Proof.
  intros Hpdf Hmd Htxt.
  assert (forall docs s,
             load_loop PyPDFLoader UnstructuredMarkdownLoader TextLoader
               (file_path :: after) docs s
             = (Raise (ValueError ("Unsupported file type: " +:+ file_path)), s))
    as Hraise.
  { intros docs s. simpl. now rewrite Hpdf, Hmd, Htxt. }
  split.
  - unfold load_documents. unfold bind at 1. rewrite load_loop_app. unfold bind at 1.
    destruct (load_loop _ _ _ before [] w) as [[docs|e] w1].
    + rewrite Hraise. eauto.
    + eauto.
  - intros documents w1 Hbefore.
    unfold load_documents. unfold bind at 1. rewrite load_loop_app. unfold bind at 1.
    now rewrite Hbefore, Hraise.
Qed.

(** *** The handle *)

Lemma get_vector_db_returns_global (w w' : World) (r : outcome (option Handle)) :
  get_vector_db PINECONE_API_KEY PINECONE_INDEX_NAME w = (r, w') ->
  forall v, r = Ok v -> _vector_db w' = v.
Proof.
  unfold get_vector_db. unfold bind at 1, get_global at 1.
  unfold bind at 1.
  match goal with
  | |- (match ?m w with _ => _ end) = _ -> _ => destruct (m w) as [[[]|e] w1]
  end.
  - unfold get_global. intros [= <- <-] v [= <-]. reflexivity.
  - intros [= <- <-] v Hv. discriminate Hv.
Qed.

Lemma get_vector_db_cached (w : World) (h : Handle) :
  _vector_db w = Some h ->
  get_vector_db PINECONE_API_KEY PINECONE_INDEX_NAME w = (Ok (Some h), w).
Proof.
  intros H. unfold get_vector_db, bind, get_global. rewrite H. simpl.
  now rewrite H.
Qed.

Lemma get_vector_db_absent (w : World) :
  _vector_db w = None ->
  api_key_set PINECONE_API_KEY = false
  \/ (next_call_answers w /\ indexes w !! PINECONE_INDEX_NAME = None) ->
  exists w',
    get_vector_db PINECONE_API_KEY PINECONE_INDEX_NAME w = (Ok None, w')
    /\ _vector_db w' = None.
Proof.
  intros Hdb Hcase.
  destruct w as [db ix nid fs cs out]. simpl in Hdb. subst db.
  unfold get_vector_db, bind, get_global. simpl.
  destruct (api_key_set PINECONE_API_KEY) eqn:Hkey.
  - destruct Hcase as [Hcase|[Hanswers Habsent]]; [discriminate Hcase|].
    simpl in Habsent. unfold next_call_answers in Hanswers. simpl in Hanswers.
    unfold list_indexes, service. simpl.
    destruct fs as [|[e|] fs']; [|discriminate Hanswers|]; simpl;
      (rewrite bool_decide_eq_false_2 by now apply not_elem_of_dom);
      simpl; eexists; split; reflexivity.
  - simpl. eexists. split; reflexivity.
Qed.

Lemma from_documents_handle (chunks : list Document) (name : string)
    (w w' : World) (r : outcome Handle) :
  from_documents chunks name w = (r, w') ->
  _vector_db w' = _vector_db w
  /\ forall h, r = Ok h -> h = mkHandle (next_id w) name.
Proof.
  intros H. split.
  - revert H. generalize w r w'. change (preserves _vector_db (from_documents chunks name)).
    unfold from_documents, describe_index, embed_documents, upsert.
    apply preserves_bind; [frame|]. intros _.
    apply preserves_bind; [intros ? ? ? [= _ <-]; reflexivity|]. intros h0.
    frame.
  - unfold from_documents in H. unfold bind at 1 in H.
    destruct (describe_index name w) as [[[]|e] w1] eqn:E1;
      [|injection H as <- _; intros h Hh; discriminate Hh].
    assert (next_id w1 = next_id w) as Hid.
    { revert E1. generalize w (Ok tt : outcome unit) w1.
      change (preserves next_id (describe_index name)).
      unfold describe_index. frame. }
    unfold bind at 1, new_handle at 1 in H.
    unfold bind at 1 in H.
    destruct (embed_documents _ _) as [[[]|e] w2];
      [|injection H as <- _; intros h Hh; discriminate Hh].
    unfold bind at 1 in H.
    destruct (upsert _ _ _) as [[[]|e] w3];
      [|injection H as <- _; intros h Hh; discriminate Hh].
    unfold ret in H. injection H as <- _.
    intros h [= <-]. now rewrite Hid.
Qed.

(** After the deletion of an overwrite, the rest of [save_to_pinecone]
    either fails and leaves the global as it is, or ends with a new
    object in it. *)
Lemma ingest_after_delete (chunks : list Document) (w w' : World)
    (r : outcome (option Handle)) :
  (do names <- list_indexes;
   exec (if negb (bool_decide (PINECONE_INDEX_NAME ∈ names)) then
           exec create_index PINECONE_INDEX_NAME 1536 None;
           print ("Created new Pinecone index '" +:+ PINECONE_INDEX_NAME +:+ "'")
         else ret tt);
   do h <- from_documents chunks PINECONE_INDEX_NAME;
   exec set_global (Some h);
   exec print ("Added " +:+ Str.of_nat (length chunks)
               +:+ " chunks to Pinecone index '" +:+ PINECONE_INDEX_NAME +:+ "'.");
   get_global) w = (r, w') ->
  (forall e, r = Raise e -> _vector_db w' = _vector_db w)
  /\ (forall v, r = Ok v ->
        exists h, v = Some h /\ _vector_db w' = Some h /\ h_index h = PINECONE_INDEX_NAME
                  /\ next_id w <= h_id h).
Proof.
  intros H. unfold bind at 1 in H.
  destruct (list_indexes w) as [[names|e] w1] eqn:E1.
  2:{ injection H as <- <-. split; [|intros v Hv; discriminate Hv].
      intros _ _. revert E1. generalize w (Raise e : outcome (gset string)) w1.
      change (preserves _vector_db list_indexes). unfold list_indexes. frame. }
  assert (_vector_db w1 = _vector_db w /\ next_id w1 = next_id w) as [Hdb1 Hid1].
  { split; revert E1; generalize w (Ok names : outcome (gset string)) w1.
    - change (preserves _vector_db list_indexes). unfold list_indexes. frame.
    - change (preserves next_id list_indexes). unfold list_indexes. frame. }
  unfold bind at 1 in H.
  match type of H with
  | (match ?m w1 with _ => _ end) = _ =>
      assert (preserves _vector_db m /\ preserves next_id m) as [Hm1 Hm2];
        [| destruct (m w1) as [[[]|e] w2] eqn:E2 ]
  end.
  { unfold create_index. split; frame. }
  2:{ injection H as <- <-. split; [|intros v Hv; discriminate Hv].
      intros _ _. now rewrite (Hm1 _ _ _ E2). }
  apply Hm1 in E2 as Hdb2. apply Hm2 in E2 as Hid2.
  unfold bind at 1 in H.
  destruct (from_documents chunks PINECONE_INDEX_NAME w2) as [[h|e] w3] eqn:E3.
  2:{ injection H as <- <-. split; [|intros v Hv; discriminate Hv].
      intros _ _. destruct (from_documents_handle _ _ _ _ _ E3) as [-> _].
      congruence. }
  destruct (from_documents_handle _ _ _ _ _ E3) as [_ Hh].
  specialize (Hh h eq_refl).
  unfold bind, set_global, print, get_global in H. simpl in H.
  injection H as <- <-. split; [intros e He; discriminate He|].
  intros v [= <-]. exists h. subst h. simpl.
  split; [reflexivity|]. split; [reflexivity|]. split; [reflexivity|]. lia.
Qed.


(** *** Ingestion and query on a service that answers *)

Lemma Forall_tl {A} (P : A -> Prop) (l : list A) : Forall P l -> Forall P (tl l).
Proof. intros H. destruct H; [constructor | assumption]. Qed.

Lemma service_healthy {A} (c : service_call) (answer : World -> outcome A * World)
    (w : World) :
  healthy w ->
  service c answer w
  = (let '(r, w') := answer (set_faults (tl (faults w)) w) in
     (r, log_call c (error_of r) w')).
Proof.
  intros H. apply run_service. unfold next_call_answers.
  destruct H as [|f fs Hf _]; [reflexivity | exact Hf].
Qed.

Lemma healthy_next (w : World) : healthy w -> healthy (set_faults (tl (faults w)) w).
Proof. apply Forall_tl. Qed.

Lemma query_data_on_index (query_text : string) (similarity_threshold : Q) (k : Z)
    (w : World) (db : Handle) (ix : Index) :
  _vector_db w = Some db ->
  indexes w !! h_index db = Some ix ->
  healthy w ->
  exists w',
    query_data PINECONE_API_KEY PINECONE_INDEX_NAME relevance
      query_text similarity_threshold k w
    = (Ok (selected (top_k relevance query_text k (records ix)) similarity_threshold k),
       w').
Proof.
  intros Hdb Hix Hhealthy.
  unfold query_data, query_data_on. unfold bind at 1. rewrite (get_vector_db_cached w db Hdb).
  unfold similarity_search_with_relevance_scores, embed_query, query_index.
  unfold bind at 1. unfold bind at 1.
  rewrite service_healthy by exact Hhealthy. cbv beta iota.
  rewrite service_healthy by apply healthy_next, Hhealthy.
  cbv beta. change (indexes (log_call _ _ (set_faults _ ?s))) with (indexes s).
  simpl indexes. rewrite Hix. cbv beta iota.
  unfold selected, no_match, bind, print, ret.
  destruct (top_k relevance query_text k (records ix)) as [|first rest];
    [eauto|].
  destruct (Qltb (snd first) similarity_threshold); eauto.
Qed.

Lemma scored_in (query_text : string) (docs : list Document) (d : Document) (s : Q) :
  In (d, s) (scored relevance query_text docs) <->
  In d docs /\ s = relevance query_text (page_content d).
Proof.
  unfold scored. rewrite in_map_iff. split.
  - intros (d' & [= <- <-] & Hin). now split.
  - intros [Hin ->]. now exists d.
Qed.

Lemma top_k_in (query_text : string) (k : Z) (docs : list Document)
    (d : Document) (s : Q) :
  In (d, s) (top_k relevance query_text k docs) ->
  In d docs /\ s = relevance query_text (page_content d).
Proof.
  unfold top_k. intros Hin. apply scored_in.
  eapply Permutation_in; [apply sorted_desc_perm|].
  eapply firstn_In. exact Hin.
Qed.

Lemma selected_in {A} (results : list (A * Q)) (t : Q) (k : Z) (x : A * Q) :
  In x (selected results t k) -> In x results.
Proof.
  unfold selected. destruct results as [|first rest]; [intros []|].
  destruct (Qltb (snd first) t); [intros []|].
  intros Hin. eapply Permutation_in; [apply sorted_desc_perm|].
  unfold slice_to in Hin. destruct (0 <=? k)%Z; eapply firstn_In; exact Hin.
Qed.

Lemma selected_below (query_text : string) (t : Q) (k : Z) (docs : list Document) :
  (forall c, In c docs -> (relevance query_text (page_content c) < t)%Q) ->
  selected (top_k relevance query_text k docs) t k = [].
Proof.
  intros Hlow. unfold selected.
  destruct (top_k relevance query_text k docs) as [|[d s] rest] eqn:E; [reflexivity|].
  assert (In (d, s) (top_k relevance query_text k docs)) as Hin
      by (rewrite E; now left).
  apply top_k_in in Hin as [Hin ->]. simpl. unfold Qltb.
  destruct (Qle_bool t (relevance query_text (page_content d))) eqn:Hle; [|reflexivity].
  apply Qle_bool_iff in Hle. specialize (Hlow d Hin).
  now apply Qle_not_lt in Hle.
Qed.

Lemma selected_retrieves (query_text : string) (t : Q) (k : Z)
    (docs : list Document) (c : Document) :
  In c docs ->
  (t <= relevance query_text (page_content c))%Q ->
  (Z.of_nat (length docs) <= k)%Z ->
  In (c, relevance query_text (page_content c))
    (selected (top_k relevance query_text k docs) t k).
Proof.
  intros Hin Hscore Hk.
  assert (length (sorted_desc (scored relevance query_text docs)) = length docs)
    as Hlen.
  { rewrite (Permutation_length (sorted_desc_perm _)). unfold scored.
    apply length_map. }
  assert (top_k relevance query_text k docs
          = sorted_desc (scored relevance query_text docs)) as Htop.
  { unfold top_k. apply firstn_all2. lia. }
  assert (In (c, relevance query_text (page_content c))
            (sorted_desc (scored relevance query_text docs))) as Hc.
  { eapply Permutation_in; [symmetry; apply sorted_desc_perm|].
    now apply scored_in. }
  rewrite Htop. unfold selected.
  destruct (sorted_desc (scored relevance query_text docs)) as [|first rest] eqn:E;
    [destruct Hc|].
  assert (relevance query_text (page_content c) <= snd first)%Q as Hbest.
  { apply (sorted_desc_head _ _ _ E (c, relevance query_text (page_content c))).
    now apply scored_in. }
  unfold Qltb.
  assert (Qle_bool t (snd first) = true) as ->.
  { apply Qle_bool_iff. eapply Qle_trans; eassumption. }
  simpl negb. cbv iota.
  rewrite slice_to_nonneg by lia.
  rewrite firstn_all2.
  - eapply Permutation_in; [symmetry; apply sorted_desc_perm|]. exact Hc.
  - rewrite (Permutation_length (sorted_desc_perm _)). rewrite Hlen. lia.
Qed.

Ltac norm :=
  unfold set_vector_db, set_indexes, set_next_id, set_faults, log_call, log_line;
  cbn [_vector_db indexes next_id faults calls stdout error_of].

Lemma save_overwrite_unfinished (chunks : list Document) (old : Index) (w : World) :
  api_key_set PINECONE_API_KEY = true ->
  indexes w !! PINECONE_INDEX_NAME = Some old ->
  healthy w ->
  exists w',
    save_to_pinecone PINECONE_API_KEY PINECONE_INDEX_NAME chunks true w
    = (Raise missing_spec, w')
    /\ map fst (new_calls w w')
       = [ListIndexes; DeleteIndex PINECONE_INDEX_NAME; ListIndexes]
    /\ indexes w' = delete PINECONE_INDEX_NAME (indexes w)
    /\ _vector_db w' = None
    /\ healthy w'.
Proof.
  intros Hkey Hold Hhealthy.
  destruct w as [db ix nid fs cs out]. simpl in Hold.
  unfold healthy in Hhealthy. simpl in Hhealthy.
  assert (PINECONE_INDEX_NAME ∈ dom ix) as Hin by (apply elem_of_dom; eauto).
  unfold save_to_pinecone. rewrite Hkey. change (negb true) with false. cbv iota.
  (* is the index there? it is: delete it and forget the handle *)
  unfold bind at 1. unfold bind at 1. unfold list_indexes at 1.
  rewrite service_healthy by exact Hhealthy. norm.
  rewrite (bool_decide_eq_true_2 _ Hin).
  unfold bind at 1. unfold delete_index.
  rewrite service_healthy by (apply Forall_tl, Hhealthy). norm.
  rewrite Hold.
  unfold bind at 1. unfold print at 1. unfold bind at 1. unfold set_global at 1. norm.
  (* it is gone: the call that is to create it raises *)
  unfold bind at 1. unfold list_indexes.
  rewrite service_healthy by (do 2 apply Forall_tl; exact Hhealthy). norm.
  rewrite bool_decide_eq_false_2 by (apply not_elem_of_dom, lookup_delete_eq).
  change (negb false) with true. cbv iota.
  unfold bind at 1. unfold bind at 1. unfold create_index, raise.
  eexists. split; [reflexivity|].
  unfold new_calls, healthy. cbn [_vector_db indexes faults calls].
  split; [|split; [|split]].
  - rewrite <- !app_assoc. rewrite drop_app_length. reflexivity.
  - reflexivity.
  - reflexivity.
  - do 3 apply Forall_tl. exact Hhealthy.
Qed.

Lemma query_data_unavailable (query_text : string) (similarity_threshold : Q)
    (k : Z) (w : World) :
  _vector_db w = None ->
  api_key_set PINECONE_API_KEY = false
  \/ (next_call_answers w /\ indexes w !! PINECONE_INDEX_NAME = None) ->
  exists w',
    query_data PINECONE_API_KEY PINECONE_INDEX_NAME relevance
      query_text similarity_threshold k w = (Ok [], w')
    /\ last (stdout w')
       = Some "No vector database available. Please create one first.".
Proof.
  intros Hdb Hnone.
  destruct (get_vector_db_absent w Hdb Hnone) as (w1 & Hget & _).
  unfold query_data, query_data_on. unfold bind at 1. rewrite Hget.
  unfold bind, print, ret. eexists. split; [reflexivity|].
  simpl. apply last_snoc.
Qed.

(** C4.  The code does not do what the specification says.  With the API key
    set, the index present and a service that answers, an ingestion with
    [overwrite=true] lists the indexes, deletes the index, lists them
    again and then calls [create_index] without the [spec] it requires:
    the call raises [TypeError] before any request is made and the
    ingestion ends in this exception.  Nothing was created, embedded or
    upserted: the index is gone with the records it held, no new chunk
    is stored and no handle is held, so that every query afterwards finds
    no vector database and returns no match, for the new content as for
    the old. *)
Theorem overwrite_deletes_and_fails (chunks : list Document) (old : Index)
    (w : World) :
  api_key_set PINECONE_API_KEY = true ->
  indexes w !! PINECONE_INDEX_NAME = Some old ->
  healthy w ->
  exists w',
    save_to_pinecone PINECONE_API_KEY PINECONE_INDEX_NAME chunks true w
    = (Raise missing_spec, w')
    /\ map fst (new_calls w w')
       = [ListIndexes; DeleteIndex PINECONE_INDEX_NAME; ListIndexes]
    /\ indexes w' !! PINECONE_INDEX_NAME = None
    /\ _vector_db w' = None
    /\ forall query_text similarity_threshold k,
         exists w'',
           query_data PINECONE_API_KEY PINECONE_INDEX_NAME relevance
             query_text similarity_threshold k w' = (Ok [], w'')
           /\ last (stdout w'')
              = Some "No vector database available. Please create one first.".
Proof.
  intros Hkey Hold Hhealthy.
  destruct (save_overwrite_unfinished chunks old w Hkey Hold Hhealthy)
    as (w' & Hsave & Hcalls & Hix & Hdb & Hhealthy').
  assert (indexes w' !! PINECONE_INDEX_NAME = None) as Hgone
      by (rewrite Hix; apply lookup_delete_eq).
  exists w'. split; [exact Hsave|]. split; [exact Hcalls|].
  split; [exact Hgone|]. split; [exact Hdb|].
  intros query_text similarity_threshold k.
  apply query_data_unavailable; [exact Hdb|].
  right. split; [|exact Hgone].
  unfold next_call_answers. destruct Hhealthy' as [|f fs Hf _]; [reflexivity | exact Hf].
Qed.

(** *** What an ingestion leaves alone *)

Lemma keeps_bind {A B} (P : World -> Prop) (m : M A) (f : A -> M B) :
  keeps P m -> (forall a, keeps P (f a)) -> keeps P (bind m f).
Proof.
  intros Hm Hf w r w' HP H. unfold bind in H.
  destruct (m w) as [[a|e] w1] eqn:E.
  - exact (Hf a _ _ _ (Hm _ _ _ HP E) H).
  - injection H as _ <-. exact (Hm _ _ _ HP E).
Qed.

Lemma keeps_service {A} (P : World -> Prop) (c : service_call)
    (answer : World -> outcome A * World) :
  (forall fs w, P w -> P (set_faults fs w)) ->
  (forall c e w, P w -> P (log_call c e w)) ->
  keeps P answer ->
  keeps P (service c answer).
Proof.
  intros Hfaults Hlog Hanswer w r w' HP H. unfold service in H.
  assert (forall fs, (let '(r0, w0) := answer (set_faults fs w) in
                      (r0, log_call c (error_of r0) w0)) = (r, w') -> P w') as Hrun.
  { intros fs Hfs. destruct (answer (set_faults fs w)) as [r0 w0] eqn:E.
    injection Hfs as _ <-. apply Hlog.
    exact (Hanswer _ _ _ (Hfaults fs w HP) E). }
  destruct (faults w) as [|[e|] fs].
  - exact (Hrun _ H).
  - injection H as _ <-. now apply Hlog, Hfaults.
  - exact (Hrun _ H).
Qed.

Lemma keeps_preserved {X A} (component : World -> X) (P : World -> Prop) (m : M A) :
  (forall w w', component w' = component w -> P w -> P w') ->
  preserves component m -> keeps P m.
Proof. intros Hc Hm w r w' HP H. exact (Hc _ _ (Hm _ _ _ H) HP). Qed.

Lemma issues_quiet {A} (Q : service_call -> Prop) (m : M A) :
  preserves calls m -> issues Q m.
Proof.
  intros Hm w r w' H. exists []. rewrite app_nil_r.
  split; [exact (Hm _ _ _ H) | constructor].
Qed.

Lemma issues_bind {A B} (Q : service_call -> Prop) (m : M A) (f : A -> M B) :
  issues Q m -> (forall a, issues Q (f a)) -> issues Q (bind m f).
Proof.
  intros Hm Hf w r w' H. unfold bind in H.
  destruct (m w) as [[a|e] w1] eqn:E.
  - destruct (Hm _ _ _ E) as (new1 & Hc1 & Hr1).
    destruct (Hf a _ _ _ H) as (new2 & Hc2 & Hr2).
    exists (new1 ++ new2). rewrite Hc2, Hc1, app_assoc.
    split; [reflexivity|]. apply Forall_app. now split.
  - injection H as _ <-. exact (Hm _ _ _ E).
Qed.

Lemma issues_service {A} (Q : service_call -> Prop) (c : service_call)
    (answer : World -> outcome A * World) :
  Q c -> preserves calls answer -> issues Q (service c answer).
Proof.
  intros Hc Hanswer w r w' H. unfold service in H.
  assert (forall fs, (let '(r0, w0) := answer (set_faults fs w) in
                      (r0, log_call c (error_of r0) w0)) = (r, w') ->
            exists new, calls w' = calls w ++ new
                        /\ Forall (fun c => Q (fst c)) new) as Hrun.
  { intros fs Hfs. destruct (answer (set_faults fs w)) as [r0 w0] eqn:E.
    injection Hfs as _ <-.
    exists [(c, error_of r0)]. simpl. rewrite (Hanswer _ _ _ E). simpl.
    split; [reflexivity|]. repeat constructor. exact Hc. }
  destruct (faults w) as [|[e|] fs].
  - exact (Hrun _ H).
  - injection H as _ <-. exists [(c, Some e)]. simpl.
    split; [reflexivity|]. repeat constructor. exact Hc.
  - exact (Hrun _ H).
Qed.

Lemma delete_index_other (name other : string) :
  other <> name -> preserves (fun w => indexes w !! other) (delete_index name).
Proof.
  intros Hne. unfold delete_index.
  apply preserves_service; [intros; reflexivity | intros; reflexivity |].
  intros w r w' H. destruct (indexes w !! name); injection H as _ <-; simpl;
    [now apply lookup_delete_ne | reflexivity].
Qed.

Lemma create_index_other (name other : string) (dim : nat)
    (spec : option ServerlessSpec) :
  other <> name ->
  preserves (fun w => indexes w !! other) (create_index name dim spec).
Proof.
  intros Hne. unfold create_index. destruct spec; [|apply preserves_raise].
  apply preserves_service; [intros; reflexivity | intros; reflexivity |].
  intros w r w' H. destruct (indexes w !! name); injection H as _ <-; simpl;
    [reflexivity | now apply lookup_insert_ne].
Qed.

Lemma upsert_other (name other : string) (docs : list Document) :
  other <> name -> preserves (fun w => indexes w !! other) (upsert name docs).
Proof.
  intros Hne. unfold upsert.
  apply preserves_service; [intros; reflexivity | intros; reflexivity |].
  intros w r w' H. destruct (indexes w !! name) as [ix|];
    [destruct (dimension ix =? embedding_dimension)|];
    injection H as _ <-; simpl; [now apply lookup_insert_ne | reflexivity..].
Qed.

Lemma from_documents_other (chunks : list Document) (name other : string) :
  other <> name ->
  preserves (fun w => indexes w !! other) (from_documents chunks name).
Proof.
  intros Hne. unfold from_documents, describe_index, embed_documents.
  apply preserves_bind; [frame|]. intros _.
  apply preserves_bind; [intros ? ? ? [= _ <-]; reflexivity|]. intros h.
  apply preserves_bind; [frame|]. intros _.
  apply preserves_bind; [now apply upsert_other | intros _; frame].
Qed.

(** X4. Whatever an ingestion does and however it ends, it leaves every
    index of another name than the configured one as it is: present or
    absent, with the same dimension and records. *)
Theorem save_to_pinecone_other_indexes (chunks : list Document) (overwrite : bool)
    (other : string) (w w' : World) (r : outcome (option Handle)) :
  other <> PINECONE_INDEX_NAME ->
  save_to_pinecone PINECONE_API_KEY PINECONE_INDEX_NAME chunks overwrite w = (r, w') ->
  indexes w' !! other = indexes w !! other.
Proof.
  intros Hne. revert w r w'.
  change (preserves (fun s => indexes s !! other)
            (save_to_pinecone PINECONE_API_KEY PINECONE_INDEX_NAME chunks overwrite)).
  unfold save_to_pinecone.
  destruct (negb (api_key_set PINECONE_API_KEY)); [frame|].
  apply preserves_bind.
  { destruct overwrite; [|frame].
    apply preserves_bind; [unfold list_indexes; frame|]. intros names.
    destruct (bool_decide _); [|frame].
    apply preserves_bind; [now apply delete_index_other | intros _; frame]. }
  intros _. apply preserves_bind; [unfold list_indexes; frame|]. intros names.
  apply preserves_bind.
  { destruct (negb _); [|frame].
    apply preserves_bind; [now apply create_index_other | intros _; frame]. }
  intros _. apply preserves_bind; [now apply from_documents_other|].
  intros h. frame.
Qed.

Lemma holds_records_indexes (dim : nat) (old : list Document) (w w' : World) :
  indexes w' = indexes w ->
  holds_records PINECONE_INDEX_NAME dim old w ->
  holds_records PINECONE_INDEX_NAME dim old w'.
Proof. unfold holds_records. now intros ->. Qed.

Lemma keeps_records_unchanged {A} (dim : nat) (old : list Document) (m : M A) :
  preserves indexes m -> keeps (holds_records PINECONE_INDEX_NAME dim old) m.
Proof. apply keeps_preserved. intros w w'. apply holds_records_indexes. Qed.

Lemma create_index_keeps (dim dim' : nat) (old : list Document)
    (spec : option ServerlessSpec) :
  keeps (holds_records PINECONE_INDEX_NAME dim old)
    (create_index PINECONE_INDEX_NAME dim' spec).
Proof.
  unfold create_index.
  destruct spec; [|apply keeps_records_unchanged, preserves_raise].
  apply keeps_service; [intros; assumption..|].
  intros w r w' (ix & Hix & Hdim & Hold) H. rewrite Hix in H.
  injection H as _ <-. now exists ix.
Qed.

Lemma upsert_keeps (dim : nat) (old docs : list Document) :
  keeps (holds_records PINECONE_INDEX_NAME dim old)
    (upsert PINECONE_INDEX_NAME docs).
Proof.
  unfold upsert. apply keeps_service; [intros; assumption..|].
  intros w r w' (ix & Hix & Hdim & Hold) H. rewrite Hix in H.
  destruct (dimension ix =? embedding_dimension); injection H as _ <-.
  - eexists. simpl. rewrite lookup_insert_eq. split; [reflexivity|].
    split; [exact Hdim|]. simpl. now apply prefix_app_r.
  - now exists ix.
Qed.

Lemma from_documents_keeps (dim : nat) (old chunks : list Document) :
  keeps (holds_records PINECONE_INDEX_NAME dim old)
    (from_documents chunks PINECONE_INDEX_NAME).
Proof.
  unfold from_documents, describe_index, embed_documents.
  apply keeps_bind; [apply keeps_records_unchanged; frame|]. intros _.
  apply keeps_bind.
  { apply keeps_records_unchanged. intros ? ? ? [= _ <-]. reflexivity. }
  intros h.
  apply keeps_bind; [apply keeps_records_unchanged; frame|]. intros _.
  apply keeps_bind; [apply upsert_keeps|]. intros _.
  apply keeps_records_unchanged. frame.
Qed.

Lemma save_without_overwrite_keeps (dim : nat) (old chunks : list Document) :
  keeps (holds_records PINECONE_INDEX_NAME dim old)
    (save_to_pinecone PINECONE_API_KEY PINECONE_INDEX_NAME chunks false).
Proof.
  unfold save_to_pinecone.
  destruct (negb (api_key_set PINECONE_API_KEY));
    [apply keeps_records_unchanged; frame|].
  apply keeps_bind; [apply keeps_records_unchanged; frame|]. intros _.
  apply keeps_bind; [apply keeps_records_unchanged; unfold list_indexes; frame|].
  intros names. apply keeps_bind.
  { destruct (negb _); [|apply keeps_records_unchanged; frame].
    apply keeps_bind; [apply create_index_keeps|]. intros _.
    apply keeps_records_unchanged. frame. }
  intros _. apply keeps_bind; [apply from_documents_keeps|]. intros h.
  apply keeps_records_unchanged. frame.
Qed.

Lemma save_without_overwrite_issues (chunks : list Document) :
  issues (fun c => is_delete c = false)
    (save_to_pinecone PINECONE_API_KEY PINECONE_INDEX_NAME chunks false).
Proof.
  unfold save_to_pinecone.
  destruct (negb (api_key_set PINECONE_API_KEY)); [apply issues_quiet; frame|].
  apply issues_bind; [apply issues_quiet; frame|]. intros _.
  apply issues_bind.
  { unfold list_indexes. apply issues_service; [reflexivity | answer_frame]. }
  intros names. apply issues_bind.
  { destruct (negb _); [|apply issues_quiet; frame].
    apply issues_bind; [|intros _; apply issues_quiet; frame].
    unfold create_index. apply issues_quiet. frame. }
  intros _. apply issues_bind; [|intros h; apply issues_quiet; frame].
  unfold from_documents, describe_index, embed_documents, upsert.
  apply issues_bind; [apply issues_service; [reflexivity | answer_frame]|].
  intros _. apply issues_bind; [apply issues_quiet, new_handle_quiet|]. intros h.
  apply issues_bind; [apply issues_service; [reflexivity | answer_frame]|].
  intros _.
  apply issues_bind; [apply issues_service; [reflexivity | answer_frame]|].
  intros _. apply issues_quiet. frame.
Qed.

(** X5. An ingestion without [overwrite] only adds: however it ends, it
    makes no call that deletes an index, and when the configured index
    was there before, it is there afterwards with the same dimension and
    with the records it had, in their order, before any new one. *)
Theorem save_without_overwrite_only_adds (chunks : list Document) (ix : Index)
    (w w' : World) (r : outcome (option Handle)) :
  indexes w !! PINECONE_INDEX_NAME = Some ix ->
  save_to_pinecone PINECONE_API_KEY PINECONE_INDEX_NAME chunks false w = (r, w') ->
  Forall (fun c => is_delete (fst c) = false) (new_calls w w')
  /\ exists ix',
      indexes w' !! PINECONE_INDEX_NAME = Some ix'
      /\ dimension ix' = dimension ix
      /\ records ix `prefix_of` records ix'.
Proof.
  intros Hix Hrun. split.
  - destruct (save_without_overwrite_issues chunks _ _ _ Hrun) as (new & Hcalls & Hnew).
    now rewrite (new_calls_app _ _ _ Hcalls).
  - apply (save_without_overwrite_keeps (dimension ix) (records ix) chunks w r w');
      [|exact Hrun].
    now exists ix.
Qed.

(** *** Ingestion on a service that answers, without overwriting *)

Ltac now_healthy := repeat apply Forall_tl; assumption.

Lemma save_append_healthy (chunks : list Document) (ix : Index) (w : World) :
  api_key_set PINECONE_API_KEY = true ->
  indexes w !! PINECONE_INDEX_NAME = Some ix ->
  dimension ix = 1536 ->
  healthy w ->
  exists w',
    save_to_pinecone PINECONE_API_KEY PINECONE_INDEX_NAME chunks false w
    = (Ok (Some (mkHandle (next_id w) PINECONE_INDEX_NAME)), w')
    /\ map fst (new_calls w w')
       = [ListIndexes; DescribeIndex PINECONE_INDEX_NAME;
          EmbedDocuments (map page_content chunks);
          Upsert PINECONE_INDEX_NAME chunks]
    /\ indexes w' !! PINECONE_INDEX_NAME
       = Some (mkIndex 1536 (records ix ++ chunks))
    /\ _vector_db w' = Some (mkHandle (next_id w) PINECONE_INDEX_NAME)
    /\ healthy w'
    /\ next_id w' = S (next_id w).
Proof.
  intros Hkey Hix Hdim Hhealthy.
  destruct w as [db ixs nid fs cs out]. simpl in Hix.
  unfold healthy in Hhealthy. simpl in Hhealthy.
  assert (PINECONE_INDEX_NAME ∈ dom ixs) as Hin by (apply elem_of_dom; eauto).
  unfold save_to_pinecone. rewrite Hkey. change (negb true) with false. cbv iota.
  unfold bind at 1. unfold ret at 1.
  unfold bind at 1. unfold list_indexes.
  rewrite service_healthy by exact Hhealthy. norm.
  rewrite (bool_decide_eq_true_2 _ Hin). change (negb true) with false. cbv iota.
  unfold bind at 1. unfold ret at 1.
  unfold bind at 1. unfold from_documents.
  unfold bind at 1. unfold describe_index.
  rewrite service_healthy by now_healthy. norm.
  rewrite Hix.
  unfold bind at 1. unfold new_handle. norm.
  unfold bind at 1. unfold embed_documents.
  rewrite service_healthy by now_healthy. norm.
  unfold bind at 1. unfold upsert.
  rewrite service_healthy by now_healthy. norm.
  rewrite Hix, Hdim.
  change (1536 =? embedding_dimension) with true. cbv iota. norm.
  unfold ret at 1. unfold bind, set_global, print, get_global. norm.
  eexists. split; [reflexivity|].
  unfold new_calls, healthy. cbn [_vector_db indexes next_id faults calls].
  split; [|split; [|split; [|split]]].
  - rewrite <- !app_assoc. rewrite drop_app_length. reflexivity.
  - now rewrite lookup_insert_eq.
  - reflexivity.
  - now_healthy.
  - reflexivity.
Qed.

Lemma save_missing_unfinished (chunks : list Document) (overwrite : bool)
    (w : World) :
  api_key_set PINECONE_API_KEY = true ->
  indexes w !! PINECONE_INDEX_NAME = None ->
  healthy w ->
  exists w',
    save_to_pinecone PINECONE_API_KEY PINECONE_INDEX_NAME chunks overwrite w
    = (Raise missing_spec, w')
    /\ map fst (new_calls w w')
       = (if overwrite then [ListIndexes] else []) ++ [ListIndexes]
    /\ indexes w' = indexes w
    /\ _vector_db w' = _vector_db w
    /\ stdout w' = stdout w.
Proof.
  intros Hkey Hix Hhealthy.
  destruct w as [db ixs nid fs cs out]. simpl in Hix.
  unfold healthy in Hhealthy. simpl in Hhealthy.
  assert (PINECONE_INDEX_NAME ∉ dom ixs) as Hin by now apply not_elem_of_dom.
  unfold save_to_pinecone. rewrite Hkey. change (negb true) with false. cbv iota.
  destruct overwrite.
  - unfold bind at 1. unfold bind at 1. unfold list_indexes at 1.
    rewrite service_healthy by exact Hhealthy. norm.
    rewrite (bool_decide_eq_false_2 _ Hin). unfold ret at 1.
    unfold bind at 1. unfold list_indexes.
    rewrite service_healthy by now_healthy. norm.
    rewrite (bool_decide_eq_false_2 _ Hin). change (negb false) with true. cbv iota.
    unfold bind at 1. unfold bind at 1. unfold create_index, raise.
    eexists. split; [reflexivity|].
    unfold new_calls. cbn [_vector_db indexes calls stdout].
    split; [|now repeat split].
    rewrite <- !app_assoc. rewrite drop_app_length. reflexivity.
  - unfold bind at 1. unfold ret at 1.
    unfold bind at 1. unfold list_indexes.
    rewrite service_healthy by now_healthy. norm.
    rewrite (bool_decide_eq_false_2 _ Hin). change (negb false) with true. cbv iota.
    unfold bind at 1. unfold bind at 1. unfold create_index, raise.
    eexists. split; [reflexivity|].
    unfold new_calls. cbn [_vector_db indexes calls stdout].
    split; [|now repeat split].
    rewrite drop_app_length. reflexivity.
Qed.

(** *** Computations that only print *)

Lemma printed_nil (w : World) : printed [] w = w.
Proof. destruct w. unfold printed. simpl. now rewrite app_nil_r. Qed.

Lemma printed_app (lines more : list string) (w : World) :
  printed more (printed lines w) = printed (lines ++ more) w.
Proof. unfold printed. simpl. now rewrite app_assoc. Qed.

Lemma only_prints_ret {A} (a : A) : only_prints (ret a).
Proof. intros w r w' [= _ <-]. exists []. now rewrite printed_nil. Qed.

Lemma only_prints_raise {A} (e : exn) : only_prints (@raise A e).
Proof. intros w r w' [= _ <-]. exists []. now rewrite printed_nil. Qed.

Lemma only_prints_lift {A} (r : outcome A) : only_prints (lift r).
Proof. intros w r' w' [= _ <-]. exists []. now rewrite printed_nil. Qed.

Lemma only_prints_print (line : string) : only_prints (print line).
Proof. intros w r w' [= _ <-]. now exists [line]. Qed.

Lemma only_prints_bind {A B} (m : M A) (f : A -> M B) :
  only_prints m -> (forall a, only_prints (f a)) -> only_prints (bind m f).
Proof.
  intros Hm Hf w r w' H. unfold bind in H.
  destruct (m w) as [[a|e] w1] eqn:E.
  - destruct (Hm _ _ _ E) as (lines & ->).
    destruct (Hf a _ _ _ H) as (more & ->).
    exists (lines ++ more). apply printed_app.
  - injection H as _ <-. exact (Hm _ _ _ E).
Qed.

Lemma only_prints_try_except {A} (m : M A) (handler : exn -> M A) :
  only_prints m -> (forall e, only_prints (handler e)) ->
  only_prints (try_except m handler).
Proof.
  intros Hm Hh w r w' H. unfold try_except in H.
  destruct (m w) as [[a|e] w1] eqn:E.
  - injection H as _ <-. exact (Hm _ _ _ E).
  - destruct (Hm _ _ _ E) as (lines & ->).
    destruct (Hh e _ _ _ H) as (more & ->).
    exists (lines ++ more). apply printed_app.
Qed.

Ltac prints :=
  repeat first
    [ apply only_prints_ret
    | apply only_prints_raise
    | apply only_prints_lift
    | apply only_prints_print
    | apply only_prints_bind; [|intros ?]
    | apply only_prints_try_except; [|intros ?]
    | match goal with
      | |- only_prints (if ?b then _ else _) => destruct b
      | |- only_prints (match ?x with _ => _ end) => destruct x
      end ].

Lemma load_loop_only_prints (files_paths : list string) (documents : list Document) :
  only_prints
    (load_loop PyPDFLoader UnstructuredMarkdownLoader TextLoader files_paths documents).
Proof.
  revert documents.
  induction files_paths as [|file_path rest IH]; intros documents; simpl.
  - prints.
  - unfold load_text. prints; apply IH.
Qed.

Lemma load_documents_prints (files_paths : list string) :
  only_prints
    (load_documents PyPDFLoader UnstructuredMarkdownLoader TextLoader files_paths).
Proof.
  unfold load_documents. apply only_prints_bind; [apply load_loop_only_prints|].
  intros documents. prints.
Qed.

(** X15. Loading files does nothing to the state of the module but
    print: however the call ends, the handle, the remote indexes and the
    record of service calls are what they were, and the output has only
    grown. *)
Theorem load_documents_only_prints (files_paths : list string) (w w' : World)
    (r : outcome (list Document)) :
  load_documents PyPDFLoader UnstructuredMarkdownLoader TextLoader files_paths w
  = (r, w') ->
  exists lines, w' = printed lines w.
Proof. apply load_documents_prints. Qed.

(** *** The loader, file by file *)

Lemma load_text_acc (file_path : string) (documents : list Document) (w : World) :
  load_text TextLoader file_path documents w
  = match load_text TextLoader file_path [] w with
    | (Ok docs, w') => (Ok (documents ++ docs), w')
    | (Raise e, w') => (Raise e, w')
    end.
Proof.
  unfold load_text, try_except, bind, lift, ret, raise, print.
  destruct (TextLoader file_path utf_8) as [docs|[]]; simpl; try reflexivity.
  destruct (TextLoader file_path latin_1); simpl; [reflexivity|].
  now rewrite app_nil_r.
Qed.

(** The documents read so far are only added to. *)
Lemma load_loop_acc (files_paths : list string) (documents : list Document)
    (w : World) :
  load_loop PyPDFLoader UnstructuredMarkdownLoader TextLoader files_paths documents w
  = match load_loop PyPDFLoader UnstructuredMarkdownLoader TextLoader
            files_paths [] w with
    | (Ok docs, w') => (Ok (documents ++ docs), w')
    | (Raise e, w') => (Raise e, w')
    end.
Proof.
  revert documents w.
  induction files_paths as [|file_path rest IH]; intros documents w.
  - simpl. unfold ret. now rewrite app_nil_r.
  - simpl.
    destruct (Str.endswith file_path ".pdf");
      [|destruct (Str.endswith file_path ".md");
        [|destruct (Str.endswith file_path ".txt")]].
    + unfold bind, lift. destruct (PyPDFLoader file_path) as [docs|e]; [|reflexivity].
      rewrite (IH (documents ++ docs)), (IH ([] ++ docs)). simpl.
      destruct (load_loop _ _ _ rest [] w) as [[more|e] w1]; [|reflexivity].
      now rewrite app_assoc.
    + unfold bind, lift.
      destruct (UnstructuredMarkdownLoader file_path) as [docs|e]; [|reflexivity].
      rewrite (IH (documents ++ docs)), (IH ([] ++ docs)). simpl.
      destruct (load_loop _ _ _ rest [] w) as [[more|e] w1]; [|reflexivity].
      now rewrite app_assoc.
    + unfold bind. rewrite (load_text_acc file_path documents).
      destruct (load_text TextLoader file_path [] w) as [[docs|e] w1]; [|reflexivity].
      rewrite (IH (documents ++ docs)), (IH docs).
      destruct (load_loop _ _ _ rest [] w1) as [[more|e] w2]; [|reflexivity].
      now rewrite app_assoc.
    + reflexivity.
Qed.

(** X13. The documents of a batch are those of its files, in the order
    of the files: when two lists of paths load without an error, the
    two lists one after the other load to the documents of the first
    followed by those of the second. *)
Theorem load_documents_app (before after : list string)
    (docs_before docs_after : list Document) (w : World) :
  fst (load_documents PyPDFLoader UnstructuredMarkdownLoader TextLoader before w)
  = Ok docs_before ->
  fst (load_documents PyPDFLoader UnstructuredMarkdownLoader TextLoader after w)
  = Ok docs_after ->
  fst (load_documents PyPDFLoader UnstructuredMarkdownLoader TextLoader
         (before ++ after) w)
  = Ok (docs_before ++ docs_after).
Proof.
  rewrite !load_documents_result, load_loop_app. unfold bind.
  destruct (load_loop _ _ _ before [] w) as [[docs|e] w1]; simpl;
    [|discriminate].
  intros [= ->] Hafter. rewrite load_loop_acc.
  rewrite (load_loop_state_independent after [] w w1) in Hafter.
  destruct (load_loop _ _ _ after [] w1) as [[docs|e] w2]; simpl in *;
    [|discriminate].
  now injection Hafter as ->.
Qed.

(** X14. A file that cannot be loaded ends the whole call with its
    exception, unless it is a text file that fails to decode: when the
    files before it load, the exception of the PDF loader, of the
    markdown loader, or of the UTF-8 attempt on a text file when it is
    not a decoding error, is raised by [load_documents], and no Latin-1
    attempt rescues the batch. *)
Theorem load_documents_failure_aborts (before after : list string)
    (file_path : string) (e : exn) (documents : list Document) (w w1 : World) :
  load_loop PyPDFLoader UnstructuredMarkdownLoader TextLoader before [] w
  = (Ok documents, w1) ->
  (Str.endswith file_path ".pdf" = true /\ PyPDFLoader file_path = Raise e)
  \/ (Str.endswith file_path ".pdf" = false
      /\ Str.endswith file_path ".md" = true
      /\ UnstructuredMarkdownLoader file_path = Raise e)
  \/ (Str.endswith file_path ".txt" = true
      /\ TextLoader file_path utf_8 = Raise e
      /\ not_decode_error e) ->
  load_documents PyPDFLoader UnstructuredMarkdownLoader TextLoader
    (before ++ file_path :: after) w
  = (Raise e, w1).
Proof.
  intros Hbefore Hfile.
  assert (forall docs s,
             load_loop PyPDFLoader UnstructuredMarkdownLoader TextLoader
               (file_path :: after) docs s = (Raise e, s)) as Hraise.
  { intros docs s. destruct Hfile as [[Hpdf He]|[(Hpdf & Hmd & He)|(Htxt & He & Hkind)]].
    - simpl. rewrite Hpdf. unfold bind, lift. now rewrite He.
    - simpl. rewrite Hpdf, Hmd. unfold bind, lift. now rewrite He.
    - rewrite load_loop_txt by exact Htxt.
      unfold bind, load_text, try_except, lift. rewrite He.
      destruct e; try reflexivity. destruct Hkind. }
  unfold load_documents. unfold bind at 1. rewrite load_loop_app. unfold bind at 1.
  now rewrite Hbefore, Hraise.
Qed.

(** *** Ingestion, end to end *)


(** X6. With the API key set and a service that answers, an ingestion
    without [overwrite] into an index of dimension 1536 that is there
    succeeds with four calls (list, describe, embed, upsert) and creates
    nothing: the index then holds its earlier records followed by the new
    chunks, and the module holds a new handle to it. *)
Theorem save_appends_to_index (chunks : list Document) (ix : Index) (w : World) :
  api_key_set PINECONE_API_KEY = true ->
  indexes w !! PINECONE_INDEX_NAME = Some ix ->
  dimension ix = 1536 ->
  healthy w ->
  exists w',
    save_to_pinecone PINECONE_API_KEY PINECONE_INDEX_NAME chunks false w
    = (Ok (Some (mkHandle (next_id w) PINECONE_INDEX_NAME)), w')
    /\ map fst (new_calls w w')
       = [ListIndexes; DescribeIndex PINECONE_INDEX_NAME;
          EmbedDocuments (map page_content chunks);
          Upsert PINECONE_INDEX_NAME chunks]
    /\ indexes w' !! PINECONE_INDEX_NAME
       = Some (mkIndex 1536 (records ix ++ chunks))
    /\ _vector_db w' = Some (mkHandle (next_id w) PINECONE_INDEX_NAME).
Proof.
  intros Hkey Hix Hdim Hhealthy.
  destruct (save_append_healthy chunks ix w Hkey Hix Hdim Hhealthy)
    as (w' & Hsave & Hcalls & Hnew & Hdb & _).
  now exists w'.
Qed.

(** X7. The index is never created by an ingestion.  With the API key
    set and a service that answers, an ingestion into an index that is
    not there, with or without [overwrite], lists the indexes (twice with
    [overwrite]) and then calls [create_index] without the [spec] it
    requires: the call raises [TypeError] before any request is made, and
    the ingestion ends in it having created, embedded and upserted
    nothing; the indexes, the handle and the output are what they
    were. *)
Theorem save_to_missing_index_fails (chunks : list Document) (overwrite : bool)
    (w : World) :
  api_key_set PINECONE_API_KEY = true ->
  indexes w !! PINECONE_INDEX_NAME = None ->
  healthy w ->
  exists w',
    save_to_pinecone PINECONE_API_KEY PINECONE_INDEX_NAME chunks overwrite w
    = (Raise missing_spec, w')
    /\ map fst (new_calls w w')
       = (if overwrite then [ListIndexes] else []) ++ [ListIndexes]
    /\ indexes w' = indexes w
    /\ _vector_db w' = _vector_db w
    /\ stdout w' = stdout w.
Proof. apply save_missing_unfinished. Qed.

(** X16. With the API key set, a service that answers, the index there
    with dimension 1536 and files that load, [process_files] without
    [overwrite] succeeds: the index then holds the records it held
    followed by the chunks of the documents loaded, a handle to it is
    held, and a query is answered from exactly these records, so that it
    returns a record that reaches the threshold whenever [k] covers the
    records. *)
Theorem process_files_ingests (file_path : string) (more : list string)
    (documents : list Document) (ix : Index) (w : World) :
  api_key_set PINECONE_API_KEY = true ->
  healthy w ->
  indexes w !! PINECONE_INDEX_NAME = Some ix ->
  dimension ix = 1536 ->
  fst (load_documents PyPDFLoader UnstructuredMarkdownLoader TextLoader
         (file_path :: more) w) = Ok documents ->
  let stored := records ix ++ split_documents 500 100 default_separators documents in
  exists w',
    process_files PINECONE_API_KEY PINECONE_INDEX_NAME
      PyPDFLoader UnstructuredMarkdownLoader TextLoader
      (Some (file_path :: more)) false w
    = (Ok (true, "Files processed and saved to vector database successfully."), w')
    /\ indexes w' !! PINECONE_INDEX_NAME = Some (mkIndex 1536 stored)
    /\ (exists h, _vector_db w' = Some h /\ h_index h = PINECONE_INDEX_NAME)
    /\ forall query_text similarity_threshold k,
        exists w'',
          query_data PINECONE_API_KEY PINECONE_INDEX_NAME relevance
            query_text similarity_threshold k w'
          = (Ok (selected (top_k relevance query_text k stored) similarity_threshold k),
             w'')
          /\ forall c,
              In c stored ->
              (similarity_threshold <= relevance query_text (page_content c))%Q ->
              (Z.of_nat (length stored) <= k)%Z ->
              In (c, relevance query_text (page_content c))
                (selected (top_k relevance query_text k stored) similarity_threshold k).
Proof.
  intros Hkey Hhealthy Hix Hdim Hload. cbv zeta.
  destruct (load_documents PyPDFLoader UnstructuredMarkdownLoader TextLoader
              (file_path :: more) w) as [r w1] eqn:Hrun.
  simpl in Hload. subst r.
  destruct (load_documents_prints _ _ _ _ Hrun) as (lines & ->).
  set (chunks := split_documents 500 100 default_separators documents).
  set (w2 := log_line ("Split " +:+ Str.of_nat (length documents)
                       +:+ " documents into " +:+ Str.of_nat (length chunks)
                       +:+ " chunks.") (printed lines w)).
  destruct (save_append_healthy chunks ix w2 Hkey Hix Hdim Hhealthy)
    as (w' & Hsave & _ & Hnew & Hdb & Hh' & _).
  exists w'. split; [|split; [exact Hnew|split; [eexists; split; [exact Hdb | reflexivity]|]]].
  - unfold process_files, try_except. unfold bind at 1. rewrite Hrun.
    unfold bind at 1, text_spliter at 1. unfold bind at 1, print at 1, ret at 1.
    fold chunks. fold w2. unfold bind at 1. rewrite Hsave. reflexivity.
  - intros query_text similarity_threshold k.
    destruct (query_data_on_index query_text similarity_threshold k w' _ _
                Hdb Hnew Hh') as (w'' & Hquery).
    exists w''. split; [exact Hquery|]. apply selected_retrieves.
Qed.

(** *** What [process_files] reports *)

Lemma save_ok_holds_handle (chunks : list Document) (overwrite : bool)
    (w w' : World) (v : option Handle) :
  save_to_pinecone PINECONE_API_KEY PINECONE_INDEX_NAME chunks overwrite w
  = (Ok v, w') ->
  exists h, v = Some h /\ _vector_db w' = Some h /\ h_index h = PINECONE_INDEX_NAME.
Proof.
  unfold save_to_pinecone.
  destruct (negb (api_key_set PINECONE_API_KEY)); [discriminate|].
  unfold bind at 1.
  match goal with
  | |- (match ?m w with _ => _ end) = _ -> _ => destruct (m w) as [[[]|e] w1]
  end; [|discriminate].
  intros Hrun.
  destruct (ingest_after_delete chunks _ _ _ Hrun) as [_ Hok].
  destruct (Hok v eq_refl) as (h & Hv & Hdb & Hname & _).
  now exists h.
Qed.

(** X1. [process_files] never raises: it returns [(True, ...)] with the
    fixed message of success, and then a handle to the configured index
    is held; or it returns [(False, message)] after printing
    ["Error processing files: " + message]. *)
Theorem process_files_never_raises (files_paths : option (list string))
    (overwrite : bool) (w : World) :
  exists ok message w',
    process_files PINECONE_API_KEY PINECONE_INDEX_NAME
      PyPDFLoader UnstructuredMarkdownLoader TextLoader files_paths overwrite w
    = (Ok (ok, message), w')
    /\ (ok = true ->
        message = "Files processed and saved to vector database successfully."
        /\ exists h, _vector_db w' = Some h /\ h_index h = PINECONE_INDEX_NAME)
    /\ (ok = false ->
        last (stdout w') = Some ("Error processing files: " +:+ message)).
Proof.
  unfold process_files, try_except.
  match goal with
  | |- context [match ?body w with _ => _ end] =>
      destruct (body w) as [[[ok message]|e] w1] eqn:E
  end.
  - exists ok, message, w1. split; [reflexivity|].
    unfold bind at 1 in E.
    match type of E with
    | (match ?m w with _ => _ end) = _ => destruct (m w) as [[documents|e] w2]
    end; [|discriminate E].
    unfold bind at 1 in E.
    destruct (text_spliter documents w2) as [[chunks|e] w3]; [|discriminate E].
    unfold bind at 1 in E.
    destruct (save_to_pinecone _ _ chunks overwrite w3) as [[v|e] w4] eqn:Hsave;
      [|discriminate E].
    unfold ret in E. injection E as <- <- <-.
    split; [|discriminate].
    intros _. split; [reflexivity|].
    destruct (save_ok_holds_handle _ _ _ _ _ Hsave) as (h & _ & Hdb & Hname).
    now exists h.
  - unfold bind, print, ret. eexists false, (str e), _. split; [reflexivity|].
    split; [discriminate|]. intros _. simpl. apply last_snoc.
Qed.

(** X2. Without files ([None] or an empty list) or without an API key,
    [process_files] reports a failure and has done nothing but print: no
    service was called and the handle and the remote indexes are what
    they were.  Without files the message is that a path must be
    provided; without a key, when the files load, it is that the key is
    not set. *)
Theorem process_files_rejects_early (files_paths : option (list string))
    (overwrite : bool) (w : World) :
  files_paths = None \/ files_paths = Some [] \/ api_key_set PINECONE_API_KEY = false ->
  exists message lines,
    process_files PINECONE_API_KEY PINECONE_INDEX_NAME
      PyPDFLoader UnstructuredMarkdownLoader TextLoader files_paths overwrite w
    = (Ok (false, message), printed lines w)
    /\ (files_paths = None \/ files_paths = Some [] ->
        message = "Either files_path or directory_path must be provided.")
    /\ (forall file_path more documents,
          files_paths = Some (file_path :: more) ->
          fst (load_documents PyPDFLoader UnstructuredMarkdownLoader TextLoader
                 (file_path :: more) w) = Ok documents ->
          message = "PINECONE_API_KEY is not set.").
Proof.
  intros Hcase.
  assert (forall (body : M (bool * string)) e lines,
             body w = (Raise e, printed lines w) ->
             try_except body
               (fun e => exec print ("Error processing files: " +:+ str e);
                         ret (false, str e)) w
             = (Ok (false, str e),
                printed (lines ++ ["Error processing files: " +:+ str e]) w))
    as Hhandled.
  { intros body e lines Hbody. unfold try_except. rewrite Hbody.
    unfold bind, print, ret. now rewrite <- printed_app. }
  unfold process_files.
  destruct files_paths as [[|file_path more]|].
  - eexists _, _. split; [|split].
    + apply (Hhandled _
               (ValueError "Either files_path or directory_path must be provided.")
               []).
      unfold bind, raise. now rewrite printed_nil.
    + reflexivity.
    + discriminate.
  - destruct Hcase as [Hcase|[Hcase|Hkey]]; [discriminate..|].
    destruct (load_documents PyPDFLoader UnstructuredMarkdownLoader TextLoader
                (file_path :: more) w) as [[documents|e] w1] eqn:Hload.
    + destruct (load_documents_prints _ _ _ _ Hload) as (lines & ->).
      eexists _, _. split; [|split].
      * apply (Hhandled _ (ValueError "PINECONE_API_KEY is not set.")
                 (lines ++ ["Split " +:+ Str.of_nat (length documents)
                            +:+ " documents into "
                            +:+ Str.of_nat
                                  (length (split_documents 500 100 default_separators
                                             documents))
                            +:+ " chunks."])).
        unfold bind at 1. rewrite Hload.
        unfold bind at 1, text_spliter. unfold bind at 1, print, ret.
        unfold bind, save_to_pinecone. rewrite Hkey. simpl negb. cbv iota.
        unfold raise. now rewrite <- printed_app.
      * intros [H|H]; discriminate H.
      * reflexivity.
    + destruct (load_documents_prints _ _ _ _ Hload) as (lines & ->).
      eexists _, _. split; [|split].
      * apply (Hhandled _ e lines). unfold bind at 1. now rewrite Hload.
      * intros [H|H]; discriminate H.
      * intros fp mr docs [= <- <-] Hdocs. rewrite Hload in Hdocs. discriminate Hdocs.
  - eexists _, _. split; [|split].
    + apply (Hhandled _
               (ValueError "Either files_path or directory_path must be provided.")
               []).
      unfold bind, raise. now rewrite printed_nil.
    + reflexivity.
    + discriminate.
Qed.

(** *** Queries *)

Lemma service_ok {A} (c : service_call) (answer : World -> outcome A * World)
    (w w' : World) (a : A) :
  service c answer w = (Ok a, w') ->
  exists w0,
    answer (set_faults (tl (faults w)) w) = (Ok a, w0) /\ w' = log_call c None w0.
Proof.
  unfold service. intros H.
  assert (forall fs,
             (let '(r0, w0) := answer (set_faults fs w) in
              (r0, log_call c (error_of r0) w0)) = (Ok a, w') ->
             exists w0, answer (set_faults fs w) = (Ok a, w0)
                        /\ w' = log_call c None w0) as Hrun.
  { clear H. intros fs H.
    destruct (answer (set_faults fs w)) as [r0 w0].
    injection H as -> <-. now exists w0. }
  destruct (faults w) as [|[e|] fs];
    [exact (Hrun _ H) | discriminate H | exact (Hrun _ H)].
Qed.

Lemma Sorted_firstn {A} (R : A -> A -> Prop) (n : nat) (l : list A) :
  Sorted R l -> Sorted R (firstn n l).
Proof.
  revert l. induction n as [|n IH]; intros l Hs; [constructor|].
  destruct l as [|x l]; simpl; [constructor|].
  apply Sorted_inv in Hs as [Hs Hhd].
  constructor; [now apply IH|].
  destruct l as [|y l]; [destruct n; constructor|].
  apply HdRel_inv in Hhd. destruct n; simpl; now constructor.
Qed.

Lemma sorted_desc_fixed {A} (l : list (A * Q)) :
  Sorted descending l -> sorted_desc l = l.
Proof.
  induction l as [|x l IH]; intros Hs; [reflexivity|].
  apply Sorted_inv in Hs as [Hs Hhd].
  simpl. rewrite (IH Hs). destruct l as [|y l]; [reflexivity|].
  apply HdRel_inv in Hhd.
  simpl. unfold descending in Hhd. apply Qle_bool_iff in Hhd. now rewrite Hhd.
Qed.

Lemma top_k_sorted (query_text : string) (k : Z) (docs : list Document) :
  Sorted descending (top_k relevance query_text k docs).
Proof. unfold top_k. apply Sorted_firstn, sorted_desc_sorted. Qed.

Lemma top_k_length (query_text : string) (k : Z) (docs : list Document) :
  length (top_k relevance query_text k docs) <= Z.to_nat k.
Proof. unfold top_k. apply firstn_le_length. Qed.

(** What is made of an answer of the store: nothing, or all of it. *)
Lemma selected_top_k (query_text : string) (t : Q) (k : Z) (docs : list Document) :
  selected (top_k relevance query_text k docs) t k = []
  \/ (selected (top_k relevance query_text k docs) t k
      = top_k relevance query_text k docs
      /\ exists first rest,
          top_k relevance query_text k docs = first :: rest /\ (t <= snd first)%Q).
Proof.
  pose proof (top_k_sorted query_text k docs) as Hsorted.
  pose proof (top_k_length query_text k docs) as Hlen.
  unfold selected.
  destruct (top_k relevance query_text k docs) as [|first rest] eqn:E; [now left|].
  unfold Qltb. destruct (Qle_bool t (snd first)) eqn:Hle; [|now left].
  right. simpl negb. cbv iota. split.
  - rewrite (sorted_desc_fixed _ Hsorted).
    assert (0 <= k)%Z as Hk by (simpl in Hlen; lia).
    rewrite slice_to_nonneg by exact Hk. now apply firstn_all2.
  - exists first, rest. split; [reflexivity|]. now apply Qle_bool_iff.
Qed.

Lemma embed_query_preserves {X} (component : World -> X) (query_text : string) :
  (forall fs w, component (set_faults fs w) = component w) ->
  (forall c e w, component (log_call c e w) = component w) ->
  preserves component (embed_query query_text).
Proof.
  intros Hfaults Hlog. unfold embed_query.
  apply preserves_service; [exact Hfaults | exact Hlog |].
  intros w r w' [= _ <-]. reflexivity.
Qed.

Lemma query_data_selects (query_text : string) (similarity_threshold : Q) (k : Z)
    (w w' : World) (results : list (Document * Q)) :
  query_data PINECONE_API_KEY PINECONE_INDEX_NAME relevance
    query_text similarity_threshold k w = (Ok results, w') ->
  results = []
  \/ exists db ix,
      _vector_db w' = Some db
      /\ indexes w !! h_index db = Some ix
      /\ results = selected (top_k relevance query_text k (records ix))
                     similarity_threshold k.
Proof.
  unfold query_data, query_data_on. unfold bind at 1.
  destruct (get_vector_db PINECONE_API_KEY PINECONE_INDEX_NAME w)
    as [[[db|]|e] w1] eqn:Hget; [| |discriminate].
  2:{ unfold bind, print, ret. intros [= <- _]. now left. }
  pose proof (get_vector_db_returns_global _ _ _ Hget _ eq_refl) as Hdb.
  pose proof (get_vector_db_frame _ _ _ Hget) as Hix1.
  unfold similarity_search_with_relevance_scores, query_index.
  unfold bind at 1. unfold bind at 1.
  destruct (embed_query query_text w1) as [[[]|e] w2] eqn:Hembed;
    [|discriminate].
  pose proof (embed_query_preserves indexes query_text
                (fun _ _ => eq_refl) (fun _ _ _ => eq_refl) _ _ _ Hembed) as Hix2.
  pose proof (embed_query_preserves _vector_db query_text
                (fun _ _ => eq_refl) (fun _ _ _ => eq_refl) _ _ _ Hembed) as Hdb2.
  destruct (service (Query (h_index db) k) _ w2) as [[rs|e] w3] eqn:Hquery;
    [|discriminate].
  apply service_ok in Hquery as (w0 & Hanswer & ->).
  simpl in Hanswer. rewrite Hix2, Hix1 in Hanswer.
  destruct (indexes w !! h_index db) as [ix|] eqn:Hix; [|discriminate Hanswer].
  injection Hanswer as <- <-.
  intros Hrun. right. exists db, ix.
  assert (results
          = selected (top_k relevance query_text k (records ix)) similarity_threshold k
          /\ _vector_db w' = Some db) as [Hres Hdb'].
  { unfold selected. unfold no_match in Hrun.
    destruct (top_k relevance query_text k (records ix)) as [|first rest].
    - unfold bind, print, ret in Hrun. injection Hrun as <- <-.
      split; [reflexivity|]. simpl. congruence.
    - destruct (Qltb (snd first) similarity_threshold).
      + unfold bind, print, ret in Hrun. injection Hrun as <- <-.
        split; [reflexivity|]. simpl. congruence.
      + unfold ret in Hrun. injection Hrun as <- <-.
        split; [reflexivity|]. simpl. congruence. }
  split; [exact Hdb'|]. split; [exact Hix | exact Hres].
Qed.

(** X10. Whatever [query_data] returns is either nothing or, unchanged
    and in full, the answer of the store for the index of the handle it
    holds: the [k] best records at most, best first, whose best score
    reaches the threshold.  No record is dropped for its own score, and
    the sort and the cut of [query_data] change nothing. *)
Theorem query_data_all_or_nothing (query_text : string) (similarity_threshold : Q)
    (k : Z) (w w' : World) (results : list (Document * Q)) :
  query_data PINECONE_API_KEY PINECONE_INDEX_NAME relevance
    query_text similarity_threshold k w = (Ok results, w') ->
  results = []
  \/ exists db ix first rest,
      _vector_db w' = Some db
      /\ indexes w !! h_index db = Some ix
      /\ results = top_k relevance query_text k (records ix)
      /\ results = first :: rest
      /\ (similarity_threshold <= snd first)%Q
      /\ Sorted descending results
      /\ length results <= Z.to_nat k.
Proof.
  intros Hrun.
  destruct (query_data_selects _ _ _ _ _ _ Hrun) as [->|(db & ix & Hdb & Hix & ->)];
    [now left|].
  destruct (selected_top_k query_text similarity_threshold k (records ix))
    as [->|(-> & first & rest & Htop & Hscore)]; [now left|].
  right. exists db, ix, first, rest.
  split; [exact Hdb|]. split; [exact Hix|]. split; [reflexivity|].
  split; [exact Htop|]. split; [exact Hscore|].
  split; [apply top_k_sorted | apply top_k_length].
Qed.

Lemma get_vector_db_stops :
  stops_at_failure Raise (get_vector_db PINECONE_API_KEY PINECONE_INDEX_NAME).
Proof.
  unfold get_vector_db, list_indexes, from_existing_index, describe_index.
  apply stops_bind; [apply stops_quiet; frame|]. intros db.
  apply stops_bind; [|intros _; apply stops_quiet; frame].
  destruct db; [apply stops_quiet; frame|].
  destruct (api_key_set PINECONE_API_KEY); [|apply stops_quiet; frame].
  apply stops_bind; [apply stops_service; answer_frame|]. intros names.
  destruct (bool_decide _); [|apply stops_quiet; frame].
  apply stops_bind; [|intros h; apply stops_quiet; frame].
  apply stops_bind; [apply stops_service; answer_frame|]. intros _.
  apply stops_quiet, new_handle_quiet.
Qed.

Lemma query_data_stops (query_text : string) (similarity_threshold : Q) (k : Z) :
  stops_at_failure Raise
    (query_data PINECONE_API_KEY PINECONE_INDEX_NAME relevance
       query_text similarity_threshold k).
Proof.
  unfold query_data, query_data_on. apply stops_bind; [apply get_vector_db_stops|].
  intros [db|]; [|apply stops_quiet; frame].
  unfold similarity_search_with_relevance_scores, embed_query, query_index.
  apply stops_bind.
  - apply stops_bind; [apply stops_service; answer_frame|]. intros _.
    apply stops_service. answer_frame.
  - intros results. destruct (no_match _ _); apply stops_quiet; frame.
Qed.

(** X9. A query does not hide a failing service: when a call of the
    index or embedding service fails during [query_data], with whatever
    error, [query_data] raises that very error instead of returning an
    empty list, and the failed call is the last one made. *)
Theorem query_data_error_propagates (query_text : string)
    (similarity_threshold : Q) (k : Z) (c : service_call) (e : exn)
    (w w' : World) (r : outcome (list (Document * Q))) :
  query_data PINECONE_API_KEY PINECONE_INDEX_NAME relevance
    query_text similarity_threshold k w = (r, w') ->
  In (c, Some e) (new_calls w w') ->
  r = Raise e
  /\ exists before,
      new_calls w w' = before ++ [(c, Some e)] /\ Forall succeeded before.
Proof.
  intros Hrun Hin.
  destruct (query_data_stops _ _ _ _ _ _ Hrun) as (new & Hcalls & Hends).
  rewrite (new_calls_app _ _ _ Hcalls) in *.
  exact (failed_call_is_last _ _ _ _ _ Hends Hin).
Qed.

Lemma query_data_only_reads (query_text : string) (similarity_threshold : Q)
    (k : Z) :
  only_reads
    (query_data PINECONE_API_KEY PINECONE_INDEX_NAME relevance
       query_text similarity_threshold k).
Proof.
  unfold query_data, query_data_on. apply only_reads_bind; [apply get_vector_db_only_reads|].
  intros [db|]; [|apply only_reads_quiet; frame].
  unfold similarity_search_with_relevance_scores, embed_query, query_index.
  apply only_reads_bind.
  - apply only_reads_bind;
      [apply only_reads_service; [reflexivity | answer_frame]|].
    intros _. apply only_reads_service; [reflexivity | answer_frame].
  - intros results. destruct (no_match _ _); apply only_reads_quiet; frame.
Qed.

(** X8. A query reads only: however [query_data] ends, the remote
    indexes are what they were and none of its calls creates, deletes or
    upserts; and a handle that was held is still held. *)
Theorem query_data_reads_only (query_text : string) (similarity_threshold : Q)
    (k : Z) (w w' : World) (r : outcome (list (Document * Q))) :
  query_data PINECONE_API_KEY PINECONE_INDEX_NAME relevance
    query_text similarity_threshold k w = (r, w') ->
  indexes w' = indexes w
  /\ reads (new_calls w w')
  /\ forall db, _vector_db w = Some db -> _vector_db w' = Some db.
Proof.
  intros Hrun. split; [exact (query_data_frame _ _ _ _ _ _ Hrun)|]. split.
  - destruct (query_data_only_reads _ _ _ _ _ _ Hrun) as (new & Hcalls & Hreads).
    now rewrite (new_calls_app _ _ _ Hcalls).
  - intros db Hdb. unfold query_data, query_data_on in Hrun. unfold bind at 1 in Hrun.
    rewrite (get_vector_db_cached w db Hdb) in Hrun.
    rewrite <- Hdb. revert Hrun. generalize w r w'.
    match goal with
    | |- forall w0 r0 w1, ?m w0 = (r0, w1) -> _ => change (preserves _vector_db m)
    end.
    unfold similarity_search_with_relevance_scores, embed_query, query_index.
    frame.
Qed.

(** *** The handle, made once and reused *)

Lemma get_vector_db_connects (ix : Index) (w : World) :
  api_key_set PINECONE_API_KEY = true ->
  _vector_db w = None ->
  indexes w !! PINECONE_INDEX_NAME = Some ix ->
  healthy w ->
  exists w',
    get_vector_db PINECONE_API_KEY PINECONE_INDEX_NAME w
    = (Ok (Some (mkHandle (next_id w) PINECONE_INDEX_NAME)), w')
    /\ calls w' = calls w ++ [(ListIndexes, None);
                              (DescribeIndex PINECONE_INDEX_NAME, None)]
    /\ _vector_db w' = Some (mkHandle (next_id w) PINECONE_INDEX_NAME)
    /\ indexes w' = indexes w
    /\ healthy w'.
Proof.
  intros Hkey Hdb Hix Hhealthy.
  destruct w as [db ixs nid fs cs out]. simpl in Hdb, Hix. subst db.
  unfold healthy in Hhealthy. simpl in Hhealthy.
  assert (PINECONE_INDEX_NAME ∈ dom ixs) as Hin by (apply elem_of_dom; eauto).
  unfold get_vector_db. unfold bind at 1, get_global at 1. norm.
  rewrite Hkey. unfold bind at 1. unfold bind at 1. unfold list_indexes.
  rewrite service_healthy by exact Hhealthy. norm.
  rewrite (bool_decide_eq_true_2 _ Hin).
  unfold bind at 1. unfold from_existing_index. unfold bind at 1.
  unfold describe_index. rewrite service_healthy by now_healthy. norm.
  rewrite Hix. unfold new_handle. norm.
  unfold bind, set_global, print, get_global. norm.
  eexists. split; [reflexivity|]. unfold healthy. cbn [_vector_db indexes faults calls].
  split; [now rewrite <- app_assoc|]. split; [reflexivity|].
  split; [reflexivity | now_healthy].
Qed.

Lemma query_data_with_handle (query_text : string) (similarity_threshold : Q)
    (k : Z) (w : World) (db : Handle) (ix : Index) :
  _vector_db w = Some db ->
  indexes w !! h_index db = Some ix ->
  healthy w ->
  exists w',
    query_data PINECONE_API_KEY PINECONE_INDEX_NAME relevance
      query_text similarity_threshold k w
    = (Ok (selected (top_k relevance query_text k (records ix)) similarity_threshold k),
       w')
    /\ calls w' = calls w ++ [(EmbedQuery query_text, None);
                              (Query (h_index db) k, None)]
    /\ _vector_db w' = Some db
    /\ indexes w' = indexes w
    /\ healthy w'.
Proof.
  intros Hdb Hix Hhealthy.
  unfold query_data, query_data_on. unfold bind at 1. rewrite (get_vector_db_cached w db Hdb).
  destruct w as [db0 ixs nid fs cs out]. simpl in Hdb, Hix. subst db0.
  unfold healthy in Hhealthy. simpl in Hhealthy.
  unfold similarity_search_with_relevance_scores, embed_query, query_index.
  unfold bind at 1. unfold bind at 1.
  rewrite service_healthy by exact Hhealthy. norm.
  rewrite service_healthy by now_healthy. norm.
  rewrite Hix.
  unfold selected, no_match, bind, print, ret.
  destruct (top_k relevance query_text k (records ix)) as [|first rest].
  - eexists. split; [reflexivity|]. unfold healthy. norm.
    split; [now rewrite <- app_assoc|]. repeat (split; [reflexivity|]). now_healthy.
  - destruct (Qltb (snd first) similarity_threshold).
    + eexists. split; [reflexivity|]. unfold healthy. norm.
      split; [now rewrite <- app_assoc|]. repeat (split; [reflexivity|]). now_healthy.
    + eexists. split; [reflexivity|]. unfold healthy. norm.
      split; [now rewrite <- app_assoc|]. repeat (split; [reflexivity|]). now_healthy.
Qed.

(** X11. The handle is made once and then reused.  With the API key
    set, the index there and a service that answers, the first query
    lists the indexes and connects before it embeds the query and queries
    the index; a query after it makes these last two calls only and uses
    the same handle. *)
Theorem query_data_connects_once (first_query second_query : string)
    (similarity_threshold : Q) (k : Z) (ix : Index) (w : World) :
  api_key_set PINECONE_API_KEY = true ->
  _vector_db w = None ->
  indexes w !! PINECONE_INDEX_NAME = Some ix ->
  healthy w ->
  exists r1 w1 r2 w2,
    query_data PINECONE_API_KEY PINECONE_INDEX_NAME relevance
      first_query similarity_threshold k w = (Ok r1, w1)
    /\ map fst (new_calls w w1)
       = [ListIndexes; DescribeIndex PINECONE_INDEX_NAME;
          EmbedQuery first_query; Query PINECONE_INDEX_NAME k]
    /\ query_data PINECONE_API_KEY PINECONE_INDEX_NAME relevance
         second_query similarity_threshold k w1 = (Ok r2, w2)
    /\ map fst (new_calls w1 w2)
       = [EmbedQuery second_query; Query PINECONE_INDEX_NAME k]
    /\ _vector_db w1 = Some (mkHandle (next_id w) PINECONE_INDEX_NAME)
    /\ _vector_db w2 = _vector_db w1.
Proof.
  intros Hkey Hdb Hix Hhealthy.
  destruct (get_vector_db_connects ix w Hkey Hdb Hix Hhealthy)
    as (w0 & Hget & Hcalls0 & Hdb0 & Hix0 & Hhealthy0).
  set (h := mkHandle (next_id w) PINECONE_INDEX_NAME) in *.
  assert (indexes w0 !! h_index h = Some ix) as Hix0' by (now rewrite Hix0).
  destruct (query_data_with_handle first_query similarity_threshold k w0 h ix
              Hdb0 Hix0' Hhealthy0) as (w1 & Hq1 & Hcalls1 & Hdb1 & Hix1 & Hhealthy1).
  assert (indexes w1 !! h_index h = Some ix) as Hix1' by (now rewrite Hix1).
  destruct (query_data_with_handle second_query similarity_threshold k w1 h ix
              Hdb1 Hix1' Hhealthy1) as (w2 & Hq2 & Hcalls2 & Hdb2 & Hix2 & _).
  eexists _, w1, _, w2.
  split.
  { unfold query_data, query_data_on. unfold bind at 1. rewrite Hget.
    unfold query_data, query_data_on in Hq1. unfold bind at 1 in Hq1.
    rewrite (get_vector_db_cached w0 h Hdb0) in Hq1. exact Hq1. }
  split.
  { unfold new_calls. rewrite Hcalls1, Hcalls0, <- app_assoc, drop_app_length.
    reflexivity. }
  split; [exact Hq2|].
  split.
  { unfold new_calls. rewrite Hcalls2, drop_app_length. reflexivity. }
  split; [exact Hdb1 | now rewrite Hdb2, Hdb1].
Qed.

(** X12. Closing drops the handle and nothing else: no service is
    called and the remote indexes stay; closing again changes nothing;
    and the next [get_vector_db], with the API key set, the index there
    and a service that answers, lists and connects again and returns a
    new object, not the one that was closed. *)
Theorem close_then_reconnect (old : Handle) (ix : Index) (w : World) :
  api_key_set PINECONE_API_KEY = true ->
  _vector_db w = Some old ->
  h_id old < next_id w ->
  indexes w !! PINECONE_INDEX_NAME = Some ix ->
  healthy w ->
  exists w1 w2 h,
    close_vector_db w = (Ok tt, w1)
    /\ _vector_db w1 = None
    /\ calls w1 = calls w
    /\ indexes w1 = indexes w
    /\ close_vector_db w1 = (Ok tt, w1)
    /\ get_vector_db PINECONE_API_KEY PINECONE_INDEX_NAME w1 = (Ok (Some h), w2)
    /\ h <> old
    /\ map fst (new_calls w1 w2) = [ListIndexes; DescribeIndex PINECONE_INDEX_NAME].
Proof.
  intros Hkey Hdb Hid Hix Hhealthy.
  set (w1 := log_line "Vector database connection closed." (set_vector_db None w)).
  assert (close_vector_db w = (Ok tt, w1)) as Hclose.
  { unfold close_vector_db, bind, get_global, set_global, print. now rewrite Hdb. }
  destruct (get_vector_db_connects ix w1 Hkey eq_refl Hix Hhealthy)
    as (w2 & Hget & Hcalls & _).
  exists w1, w2, (mkHandle (next_id w) PINECONE_INDEX_NAME).
  split; [exact Hclose|]. split; [reflexivity|]. split; [reflexivity|].
  split; [reflexivity|]. split; [reflexivity|]. split; [exact Hget|].
  split.
  - intros <-. simpl in Hid. lia.
  - unfold new_calls. rewrite Hcalls, drop_app_length. reflexivity.
Qed.

(** *** The chunks and their documents *)

Lemma emit_nonempty (current_doc : list string) :
  Forall (fun c => c <> EmptyString) (emit current_doc).
Proof.
  unfold emit, join_docs.
  destruct (Str.is_empty _) eqn:E; constructor; [|constructor].
  unfold Str.is_empty in E. now apply String.eqb_neq in E.
Qed.

Lemma merge_loop_nonempty (chunk_size chunk_overlap : nat)
    (splits current_doc : list string) :
  Forall (fun c => c <> EmptyString)
    (merge_loop chunk_size chunk_overlap splits current_doc).
Proof.
  revert current_doc.
  induction splits as [|d rest IH]; intros current_doc; simpl.
  - apply emit_nonempty.
  - destruct (chunk_size <? _); [|apply IH].
    destruct current_doc as [|p more]; [apply IH|].
    apply Forall_app. split; [apply emit_nonempty | apply IH].
Qed.

Lemma split_loop_nonempty (chunk_size chunk_overlap : nat)
    (deeper : option (string -> list string)) (splits good_splits : list string) :
  1 <= chunk_size ->
  (forall split_deeper s, deeper = Some split_deeper ->
                          Forall (fun c => c <> EmptyString) (split_deeper s)) ->
  Forall (fun c => c <> EmptyString)
    (split_loop chunk_size chunk_overlap deeper splits good_splits).
Proof.
  intros Hsize Hdeep. revert good_splits.
  induction splits as [|s rest IH]; intros good; simpl.
  - apply merge_loop_nonempty.
  - destruct (Str.len s <? chunk_size) eqn:E; [apply IH|].
    apply Nat.ltb_ge in E.
    apply Forall_app. split; [apply merge_loop_nonempty|].
    apply Forall_app. split; [|apply IH].
    destruct deeper as [split_deeper|]; [now apply Hdeep|].
    constructor; [|constructor].
    intros ->. unfold Str.len in E. simpl in E. lia.
Qed.

Lemma split_text_nonempty (chunk_size chunk_overlap : nat)
    (separators : list string) (text : string) :
  1 <= chunk_size ->
  Forall (fun c => c <> EmptyString)
    (split_text chunk_size chunk_overlap separators text).
Proof.
  intros Hsize. revert text.
  induction separators as [|separator new_separators IH]; intros text; simpl.
  - constructor.
  - destruct new_separators as [|next more].
    + apply split_loop_nonempty; [exact Hsize | discriminate].
    + destruct (Str.is_empty separator).
      * apply split_loop_nonempty; [exact Hsize | discriminate].
      * destruct (Str.contains separator text); [|apply IH].
        apply split_loop_nonempty; [exact Hsize|].
        intros split_deeper s [= <-]. apply IH.
Qed.

Lemma create_documents_metadata (chunk_overlap : nat) (text src : string)
    (index previous : Z) (chunks : list string) (chunk : Document) :
  In chunk (create_documents chunk_overlap text src index previous chunks) ->
  source chunk = src
  /\ In (page_content chunk) chunks
  /\ exists i, start_index chunk = Some i.
Proof.
  revert index previous.
  induction chunks as [|c rest IH]; intros index previous; simpl.
  - intros [].
  - intros [<-|Hin].
    + simpl. split; [reflexivity|]. split; [now left | eauto].
    + destruct (IH _ _ Hin) as (Hsrc & Hc & Hi).
      split; [exact Hsrc|]. split; [now right | exact Hi].
Qed.

(** X3. Splitting never raises and works document by document: the
    chunks of a list of documents are the chunks of its documents, one
    document after the other, so that no chunk spans two documents; and
    every chunk carries the source of the document it was cut from, a
    text that is not empty and a start index. *)
Theorem text_spliter_by_document (documents more : list Document) (w : World) :
  exists chunks more_chunks,
    fst (text_spliter documents w) = Ok chunks
    /\ fst (text_spliter more w) = Ok more_chunks
    /\ fst (text_spliter (documents ++ more) w) = Ok (chunks ++ more_chunks)
    /\ forall chunk, In chunk chunks ->
         page_content chunk <> EmptyString
         /\ (exists i, start_index chunk = Some i)
         /\ exists doc, In doc documents
              /\ source chunk = source doc
              /\ In chunk (match fst (text_spliter [doc] w) with
                           | Ok of_doc => of_doc
                           | Raise _ => []
                           end).
Proof.
  unfold text_spliter, bind, print, ret. cbn [fst].
  eexists _, _. split; [reflexivity|]. split; [reflexivity|].
  split.
  { unfold split_documents. now rewrite flat_map_app. }
  intros chunk Hin.
  unfold split_documents in Hin. apply in_flat_map in Hin as (doc & Hdoc & Hin).
  pose proof Hin as Hchunk.
  unfold split_document in Hin.
  apply create_documents_metadata in Hin as (Hsrc & Hc & Hi).
  split.
  { pose proof (split_text_nonempty 500 100 default_separators (page_content doc))
      as H.
    rewrite List.Forall_forall in H. apply H; [lia | exact Hc]. }
  split; [exact Hi|].
  exists doc. split; [exact Hdoc|]. split; [exact Hsrc|].
  unfold split_documents. simpl. rewrite app_nil_r. exact Hchunk.
Qed.

(** *** An overwrite that fails *)

Lemma holds_nothing_indexes (name : string) (w w' : World) :
  indexes w' = indexes w -> holds_nothing name w -> holds_nothing name w'.
Proof. unfold holds_nothing. now intros ->. Qed.

Lemma keeps_nothing_unchanged {A} (name : string) (m : M A) :
  preserves indexes m -> keeps (holds_nothing name) m.
Proof. apply keeps_preserved. intros w w'. apply holds_nothing_indexes. Qed.

Lemma create_index_keeps_nothing (name : string) (dim : nat)
    (spec : option ServerlessSpec) :
  keeps (holds_nothing name) (create_index name dim spec).
Proof.
  unfold create_index.
  destruct spec; [|apply keeps_nothing_unchanged, preserves_raise].
  apply keeps_service; [intros; assumption..|].
  intros w r w' HP H.
  destruct (indexes w !! name) as [ix|] eqn:Hix.
  - injection H as _ <-. exact HP.
  - injection H as _ <-. right. exists dim. unfold set_indexes. simpl.
    apply lookup_insert_eq.
Qed.

Lemma upsert_raise (name : string) (docs : list Document) (e : exn)
    (w w' : World) :
  upsert name docs w = (Raise e, w') -> indexes w' = indexes w.
Proof.
  unfold upsert, service.
  assert (forall fs r,
             (let '(r0, w0) :=
                match indexes (set_faults fs w) !! name with
                | Some ix =>
                    if dimension ix =? embedding_dimension
                    then (Ok tt,
                          set_indexes
                            (<[name := mkIndex (dimension ix) (records ix ++ docs)]>
                               (indexes (set_faults fs w))) (set_faults fs w))
                    else (Raise (ServiceError
                                   "vector dimension does not match the index"),
                          set_faults fs w)
                | None => (Raise (ServiceError "index not found"), set_faults fs w)
                end in
              (r0, log_call (Upsert name docs) (error_of r0) w0)) = (Raise r, w') ->
             indexes w' = indexes w) as Hrun.
  { intros fs r H. cbn [indexes set_faults] in H.
    destruct (indexes w !! name) as [ix|].
    - destruct (dimension ix =? embedding_dimension).
      + discriminate H.
      + injection H as _ <-. reflexivity.
    - injection H as _ <-. reflexivity. }
  destruct (faults w) as [|[e0|] fs]; intros H.
  - exact (Hrun _ _ H).
  - injection H as _ <-. reflexivity.
  - exact (Hrun _ _ H).
Qed.

Lemma from_documents_raise_keeps (chunks : list Document) (name : string)
    (e : exn) (w w' : World) :
  from_documents chunks name w = (Raise e, w') ->
  holds_nothing name w -> holds_nothing name w'.
Proof.
  intros H HP. unfold from_documents in H.
  unfold bind at 1 in H.
  destruct (describe_index name w) as [[[]|e1] w1] eqn:E1.
  2:{ injection H as _ <-. revert HP. apply holds_nothing_indexes.
      revert E1. generalize w (Raise e1 : outcome unit) w1.
      change (preserves indexes (describe_index name)).
      unfold describe_index. frame. }
  assert (holds_nothing name w1) as HP1.
  { revert HP. apply holds_nothing_indexes.
    revert E1. generalize w (Ok tt : outcome unit) w1.
    change (preserves indexes (describe_index name)).
    unfold describe_index. frame. }
  unfold bind at 1 in H. unfold new_handle at 1 in H.
  unfold bind at 1 in H.
  destruct (embed_documents (map page_content chunks)
              (set_next_id (S (next_id w1)) w1)) as [[[]|e2] w2] eqn:E2.
  2:{ injection H as _ <-. revert HP1. apply holds_nothing_indexes.
      change (indexes w1) with (indexes (set_next_id (S (next_id w1)) w1)).
      revert E2. generalize (set_next_id (S (next_id w1)) w1)
                   (Raise e2 : outcome unit) w2.
      change (preserves indexes (embed_documents (map page_content chunks))).
      unfold embed_documents. frame. }
  assert (holds_nothing name w2) as HP2.
  { revert HP1. apply holds_nothing_indexes.
    change (indexes w1) with (indexes (set_next_id (S (next_id w1)) w1)).
    revert E2. generalize (set_next_id (S (next_id w1)) w1)
                 (Ok tt : outcome unit) w2.
    change (preserves indexes (embed_documents (map page_content chunks))).
    unfold embed_documents. frame. }
  unfold bind at 1 in H.
  destruct (upsert name chunks w2) as [[[]|e3] w3] eqn:E3.
  - discriminate H.
  - injection H as _ <-. revert HP2. apply holds_nothing_indexes.
    exact (upsert_raise _ _ _ _ _ E3).
Qed.

Lemma ingest_raise_keeps_nothing (chunks : list Document) (e : exn)
    (w w' : World) :
  (do names <- list_indexes;
   exec (if negb (bool_decide (PINECONE_INDEX_NAME ∈ names)) then
           exec create_index PINECONE_INDEX_NAME 1536 None;
           print ("Created new Pinecone index '" +:+ PINECONE_INDEX_NAME +:+ "'")
         else ret tt);
   do h <- from_documents chunks PINECONE_INDEX_NAME;
   exec set_global (Some h);
   exec print ("Added " +:+ Str.of_nat (length chunks)
               +:+ " chunks to Pinecone index '" +:+ PINECONE_INDEX_NAME +:+ "'.");
   get_global) w = (Raise e, w') ->
  holds_nothing PINECONE_INDEX_NAME w ->
  holds_nothing PINECONE_INDEX_NAME w'.
Proof.
  intros H HP. unfold bind at 1 in H.
  assert (keeps (holds_nothing PINECONE_INDEX_NAME) list_indexes) as Hlist.
  { apply keeps_nothing_unchanged. unfold list_indexes. frame. }
  destruct (list_indexes w) as [[names|e1] w1] eqn:E1.
  2:{ injection H as _ <-. exact (Hlist _ _ _ HP E1). }
  apply (Hlist _ _ _ HP) in E1 as HP1.
  unfold bind at 1 in H.
  match type of H with
  | (match ?m w1 with _ => _ end) = _ =>
      assert (keeps (holds_nothing PINECONE_INDEX_NAME) m) as Hcreate;
        [| destruct (m w1) as [[[]|e2] w2] eqn:E2 ]
  end.
  { destruct (negb _).
    - apply keeps_bind; [apply create_index_keeps_nothing|].
      intros _. apply keeps_nothing_unchanged. frame.
    - apply keeps_nothing_unchanged. frame. }
  2:{ injection H as _ <-. exact (Hcreate _ _ _ HP1 E2). }
  apply (Hcreate _ _ _ HP1) in E2 as HP2.
  unfold bind at 1 in H.
  destruct (from_documents chunks PINECONE_INDEX_NAME w2) as [[h|e3] w3] eqn:E3.
  - unfold bind, set_global, print, get_global in H. discriminate H.
  - injection H as _ <-. exact (from_documents_raise_keeps _ _ _ _ _ E3 HP2).
Qed.

(** X17. An overwrite is not undone when it fails.  With the API key
    set and the index there, once the listing and the deletion have
    succeeded, an ingestion with [overwrite] that then ends in an
    exception leaves the index without any record, absent or empty: the
    records it held are lost and none of the new chunks is stored. *)
Theorem failed_overwrite_loses_records (chunks : list Document) (old : Index)
    (e : exn) (w w' : World) :
  api_key_set PINECONE_API_KEY = true ->
  indexes w !! PINECONE_INDEX_NAME = Some old ->
  answers 2 w ->
  save_to_pinecone PINECONE_API_KEY PINECONE_INDEX_NAME chunks true w
  = (Raise e, w') ->
  holds_nothing PINECONE_INDEX_NAME w'
  /\ In (DeleteIndex PINECONE_INDEX_NAME, None) (new_calls w w').
Proof.
  intros Hkey Hold Hanswers Hrun.
  pose proof Hrun as Hcalls.
  unfold save_to_pinecone in Hrun. rewrite Hkey in Hrun.
  change (negb true) with false in Hrun. cbv iota in Hrun.
  unfold bind at 1 in Hrun.
  match type of Hrun with
  | (match ?m w with _ => _ end) = _ =>
      assert (exists w1, m w = (Ok tt, w1)
                         /\ indexes w1 !! PINECONE_INDEX_NAME = None
                         /\ calls w1
                            = calls w ++ [(ListIndexes, None);
                                          (DeleteIndex PINECONE_INDEX_NAME, None)])
        as (w1 & Hpre & Hgone & Hcalls1)
  end.
  { destruct w as [db ix nid fs cs out]. simpl in Hold.
    unfold answers in Hanswers. simpl in Hanswers.
    assert (PINECONE_INDEX_NAME ∈ dom ix) as Hin by (apply elem_of_dom; eauto).
    unfold bind, list_indexes, delete_index, service. simpl.
    destruct fs as [|[e0|] [|[e'|] fs']]; simpl;
      try (exfalso; inversion Hanswers as [|? ? H1 H2]; subst;
           first [discriminate H1 | inversion H2; subst; discriminate]);
      rewrite (bool_decide_eq_true_2 _ Hin); simpl; rewrite Hold; simpl;
      (eexists; split; [reflexivity|]; simpl; split;
       [apply lookup_delete_eq | now rewrite <- app_assoc]). }
  rewrite Hpre in Hrun.
  split.
  - apply (ingest_raise_keeps_nothing chunks e w1 w' Hrun). now left.
  - assert (exists new, calls w' = calls w1 ++ new) as [new Hnew].
    { match type of Hrun with
      | ?tail w1 = _ =>
          assert (issues (fun _ => True) tail) as Htail;
            [| destruct (Htail _ _ _ Hrun) as (new & Hnew & _); now exists new ]
      end.
      apply issues_bind.
      { unfold list_indexes. apply issues_service; [exact I | answer_frame]. }
      intros names. apply issues_bind.
      { destruct (negb _); [|apply issues_quiet; frame].
        apply issues_bind; [|intros _; apply issues_quiet; frame].
        unfold create_index. apply issues_quiet. frame. }
      intros _. apply issues_bind; [|intros h; apply issues_quiet; frame].
      unfold from_documents, describe_index, embed_documents, upsert.
      apply issues_bind; [apply issues_service; [exact I | answer_frame]|].
      intros _. apply issues_bind; [apply issues_quiet, new_handle_quiet|].
      intros h.
      apply issues_bind; [apply issues_service; [exact I | answer_frame]|].
      intros _.
      apply issues_bind; [apply issues_service; [exact I | answer_frame]|].
      intros _. apply issues_quiet. frame. }
    unfold new_calls. rewrite Hnew, Hcalls1, <- !app_assoc, drop_app_length.
    simpl. right. now left.
Qed.

(** *** Files that do not load *)

(** X18. Nothing is ingested from a batch that does not load: when
    [load_documents] raises on the files, [process_files] returns
    [(False, str(e))] having done nothing but print, so that no service
    is called and, even with [overwrite], the index and the handle are
    what they were. *)
Theorem process_files_load_failure (files_paths : list string) (overwrite : bool)
    (e : exn) (w : World) :
  fst (load_documents PyPDFLoader UnstructuredMarkdownLoader TextLoader
         files_paths w) = Raise e ->
  exists lines,
    process_files PINECONE_API_KEY PINECONE_INDEX_NAME
      PyPDFLoader UnstructuredMarkdownLoader TextLoader
      (Some files_paths) overwrite w
    = (Ok (false, str e), printed lines w)
    /\ last lines = Some ("Error processing files: " +:+ str e).
Proof.
  intros Hload.
  destruct files_paths as [|file_path more].
  { unfold load_documents, bind, print, ret in Hload. simpl in Hload.
    discriminate Hload. }
  destruct (load_documents PyPDFLoader UnstructuredMarkdownLoader TextLoader
              (file_path :: more) w) as [r w1] eqn:Hrun.
  simpl in Hload. subst r.
  destruct (load_documents_prints _ _ _ _ Hrun) as (lines & ->).
  exists (lines ++ ["Error processing files: " +:+ str e]).
  split; [|apply last_snoc].
  unfold process_files, try_except. unfold bind at 1. rewrite Hrun.
  unfold bind, print, ret. now rewrite <- printed_app.
Qed.

(** *** Ingesting twice *)

(** X19. Chunks are not deduplicated.  With the API key set, a service
    that answers and the index there with dimension 1536, ingesting the
    same chunks a second time without [overwrite] stores them a second
    time, behind the records the index held and their first copy, and
    replaces the handle by a new object once more. *)
Theorem save_to_pinecone_twice (chunks : list Document) (ix : Index) (w : World) :
  api_key_set PINECONE_API_KEY = true ->
  healthy w ->
  indexes w !! PINECONE_INDEX_NAME = Some ix ->
  dimension ix = 1536 ->
  exists h1 w1 h2 w2,
    save_to_pinecone PINECONE_API_KEY PINECONE_INDEX_NAME chunks false w
    = (Ok (Some h1), w1)
    /\ save_to_pinecone PINECONE_API_KEY PINECONE_INDEX_NAME chunks false w1
       = (Ok (Some h2), w2)
    /\ indexes w2 !! PINECONE_INDEX_NAME
       = Some (mkIndex 1536 (records ix ++ chunks ++ chunks))
    /\ h2 <> h1.
Proof.
  intros Hkey Hhealthy Hix Hdim.
  destruct (save_append_healthy chunks ix w Hkey Hix Hdim Hhealthy)
    as (w1 & Hrun1 & _ & Hix1 & _ & Hhealthy1 & Hid1).
  destruct (save_append_healthy chunks _ w1 Hkey Hix1 eq_refl Hhealthy1)
    as (w2 & Hrun2 & _ & Hix2 & _).
  eexists _, w1, _, w2. split; [exact Hrun1|]. split; [exact Hrun2|].
  split.
  - rewrite Hix2. cbn [records]. now rewrite <- app_assoc.
  - rewrite Hid1. intros [= H]. lia.
Qed.

(** *** The handle, from call to call *)






End VectorDatabaseFacts.

(** ** The loader on text files as langchain loads them *)

Section TextLoaderFacts.

Variable PyPDFLoader : string -> outcome (list Document).
Variable UnstructuredMarkdownLoader : string -> outcome (list Document).

(** [open(file_path, encoding=...).read()] on the files as they are on
    disk. *)
Variable read_text : string -> encoding -> outcome string.

Lemma load_text_unreadable (file_path : string) (e : exn)
    (documents : list Document) (w : World) :
  read_text file_path utf_8 = Raise e ->
  load_text (langchain_text_loader read_text) file_path documents w
  = (Raise (RuntimeError ("Error loading " +:+ file_path)), w).
Proof.
  intros Hread.
  unfold load_text, try_except, bind, lift, langchain_text_loader.
  now rewrite Hread.
Qed.

(** C8.  The code does not do what the specification says.  The text loader
    raises [RuntimeError] for every failure of the read, a decoding
    failure included, so the handler of [load_documents] for
    [UnicodeDecodeError] never runs.  When a [.txt] file cannot be read
    as UTF-8, whatever the failure and whether or not the file reads as
    Latin-1, no second attempt is made and the file is not skipped: once
    the files before it are loaded, [load_documents] raises
    [RuntimeError("Error loading <path>")], prints nothing about it and
    returns no document of any file of the batch. *)
Theorem undecodable_text_aborts (before after : list string) (file_path : string)
    (e : exn) (documents : list Document) (w w1 : World) :
  load_loop PyPDFLoader UnstructuredMarkdownLoader (langchain_text_loader read_text)
    before [] w = (Ok documents, w1) ->
  Str.endswith file_path ".txt" = true ->
  read_text file_path utf_8 = Raise e ->
  load_documents PyPDFLoader UnstructuredMarkdownLoader
    (langchain_text_loader read_text) (before ++ file_path :: after) w
  = (Raise (RuntimeError ("Error loading " +:+ file_path)), w1).
Proof.
  intros Hbefore Htxt Hread.
  unfold load_documents. unfold bind at 1. rewrite load_loop_app.
  unfold bind at 1. rewrite Hbefore.
  rewrite load_loop_txt by exact Htxt.
  unfold bind at 1. now rewrite (load_text_unreadable _ e).
Qed.

End TextLoaderFacts.

(** C2, as the specification states it, fails: with the API key set and
    no index of the configured name, a query returns the empty list as a
    value, the same outcome as the threshold miss of a query that no
    record of an existing index matches. *)
Lemma missing_index_not_surfaced :
  ~ missing_index_claim (Some "key") "rag-ai-agent" exact_match empty_world.
Proof.
  intros claim.
  apply (claim eq_refl eq_refl "question" (7 # 10)%Q 3%Z).
  vm_compute. reflexivity.
Qed.

Example missing_index_looks_like_threshold_miss :
  fst (query_data (Some "key") "rag-ai-agent" exact_match "question" (7 # 10)%Q 3
         empty_world)
  = fst (query_data (Some "key") "rag-ai-agent" exact_match "question" (7 # 10)%Q 3
           (one_record_world "rag-ai-agent" "unrelated text")).
Proof. vm_compute. reflexivity. Qed.

(** C3, as the specification states it, fails for [process_files]: when
    the index service times out, the call does not fail with the
    time-out; it returns [(False, "request timed out")]. *)
Lemma transient_error_reported_as_value :
  ~ transient_error_claim (Some "key") "rag-ai-agent"
      example_pdf example_markdown example_text [new_chunk] (Some ["notes.txt"]) false
      (failing_world "rag-ai-agent" "old text" [None; Some timed_out]).
Proof.
  intros [_ claim].
  assert (fst (process_files (Some "key") "rag-ai-agent"
                 example_pdf example_markdown example_text (Some ["notes.txt"]) false
                 (failing_world "rag-ai-agent" "old text" [None; Some timed_out]))
          = Raise timed_out) as Hraised.
  { apply (claim (DescribeIndex "rag-ai-agent")); [|reflexivity].
    vm_compute. right. left. reflexivity. }
  vm_compute in Hraised. discriminate Hraised.
Qed.

(** What [process_files] returns does not tell a time-out from an error
    of the service that no retry will cure. *)
Example transient_and_fatal_look_alike :
  fst (process_files (Some "key") "rag-ai-agent"
         example_pdf example_markdown example_text (Some ["notes.txt"]) false
         (failing_world "rag-ai-agent" "old text" [None; Some timed_out]))
  = fst (process_files (Some "key") "rag-ai-agent"
           example_pdf example_markdown example_text (Some ["notes.txt"]) false
           (failing_world "rag-ai-agent" "old text"
              [None; Some (ServiceError "request timed out")])).
Proof. vm_compute. reflexivity. Qed.


(** ** The theorems at work on concrete inputs *)

Lemma query_data_threshold_witness :
  let w := one_record_world "rag-ai-agent" "the answer" in
  let db := mkHandle 0 "rag-ai-agent" in
  let w1 := snd (get_vector_db (Some "key") "rag-ai-agent" w) in
  let first := (mkDocument "first" "a.txt" (Some 0%Z), (9 # 10)%Q) in
  let second := (mkDocument "second" "b.txt" (Some 0%Z), (8 # 10)%Q) in
  let third := (mkDocument "third" "c.txt" (Some 0%Z), (3 # 4)%Q) in
  get_vector_db (Some "key") "rag-ai-agent" w = (Ok (Some db), w1)
  /\ example_search db "question" 3 w1 = (Ok example_answer, w1)
  /\ (exists ranked,
        Permutation ranked example_answer
        /\ Sorted descending ranked
        /\ query_data_on (Some "key") "rag-ai-agent" example_search
             "question" (7 # 10)%Q 3 w
           = (Ok (slice_to 3 ranked), w1)
        /\ ((0 <= 3)%Z ->
            slice_to 3 ranked = firstn (Z.to_nat 3) ranked
            /\ length (slice_to 3 ranked) <= Z.to_nat 3))
  /\ query_data_on (Some "key") "rag-ai-agent" example_search
       "question" (7 # 10)%Q 3 w
     = (Ok [first; second; third], w1)
  /\ query_data_on (Some "key") "rag-ai-agent" example_search
       "question" (85 # 100)%Q 3 w
     = (Ok [], log_line "Unable to find matching results." w1).
Proof.
  cbv zeta.
  assert (get_vector_db (Some "key") "rag-ai-agent"
            (one_record_world "rag-ai-agent" "the answer")
          = (Ok (Some (mkHandle 0 "rag-ai-agent")),
             snd (get_vector_db (Some "key") "rag-ai-agent"
                    (one_record_world "rag-ai-agent" "the answer"))))
    as Hdb by (vm_compute; reflexivity).
  split; [exact Hdb|]. split; [reflexivity|]. split; [|split].
  - apply (proj2 (query_data_threshold (Some "key") "rag-ai-agent" example_search
                    "question" (7 # 10)%Q 3 _ _ _ _ example_answer Hdb eq_refl)
             _ _ eq_refl).
    vm_compute. discriminate.
  - vm_compute. reflexivity.
  - apply (proj1 (query_data_threshold (Some "key") "rag-ai-agent" example_search
                    "question" (85 # 100)%Q 3 _ _ _ _ example_answer Hdb eq_refl)).
    right. eexists. eexists. split; [reflexivity|]. vm_compute. reflexivity.
Defined.

Lemma query_without_index_witness :
  _vector_db empty_world = None
  /\ next_call_answers empty_world
  /\ indexes empty_world !! "rag-ai-agent" = None
  /\ exists w',
      query_data (Some "key") "rag-ai-agent" exact_match "question" (7 # 10)%Q 3
        empty_world = (Ok [], w')
      /\ last (stdout w')
         = Some "No vector database available. Please create one first."
      /\ indexes w' = indexes empty_world
      /\ _vector_db w' = None.
Proof.
  split; [reflexivity|]. split; [reflexivity|]. split; [reflexivity|].
  apply query_without_index; [reflexivity|].
  right. split; reflexivity.
Defined.

Lemma service_error_propagates_witness :
  let w := failing_world "rag-ai-agent" "old text" [None; Some timed_out] in
  let save := save_to_pinecone (Some "key") "rag-ai-agent" [new_chunk] false w in
  let process :=
    process_files (Some "key") "rag-ai-agent"
      example_pdf example_markdown example_text (Some ["notes.txt"]) false w in
  retryable timed_out = true
  /\ In (DescribeIndex "rag-ai-agent", Some timed_out) (new_calls w (snd save))
  /\ In (DescribeIndex "rag-ai-agent", Some timed_out) (new_calls w (snd process))
  /\ (fst save = Raise timed_out
      /\ exists before,
          new_calls w (snd save)
          = before ++ [(DescribeIndex "rag-ai-agent", Some timed_out)]
          /\ Forall succeeded before)
  /\ (fst process = Ok (false, str timed_out)
      /\ exists before,
          new_calls w (snd process)
          = before ++ [(DescribeIndex "rag-ai-agent", Some timed_out)]
          /\ Forall succeeded before).
Proof.
  cbv zeta.
  split; [reflexivity|].
  split; [vm_compute; right; left; reflexivity|].
  split; [vm_compute; right; left; reflexivity|].
  split.
  - refine (proj1 (service_error_propagates (Some "key") "rag-ai-agent"
                     example_pdf example_markdown example_text
                     [new_chunk] None false _ _ _ _) _ _ _).
    + apply surjective_pairing.
    + vm_compute. right. left. reflexivity.
  - refine (proj2 (service_error_propagates (Some "key") "rag-ai-agent"
                     example_pdf example_markdown example_text
                     [] (Some ["notes.txt"]) false _ _ _ _) _ _ _).
    + apply surjective_pairing.
    + vm_compute. right. left. reflexivity.
Defined.

Lemma overwrite_deletes_and_fails_witness :
  let w := one_record_world "rag-ai-agent" "old text" in
  api_key_set (Some "key") = true
  /\ indexes w !! "rag-ai-agent"
     = Some (mkIndex 1536 [mkDocument "old text" "note.txt" (Some 0%Z)])
  /\ healthy w
  /\ exists w',
      save_to_pinecone (Some "key") "rag-ai-agent" [new_chunk] true w
      = (Raise missing_spec, w')
      /\ map fst (new_calls w w')
         = [ListIndexes; DeleteIndex "rag-ai-agent"; ListIndexes]
      /\ indexes w' !! "rag-ai-agent" = None
      /\ (exists w'',
             query_data (Some "key") "rag-ai-agent" exact_match
               "old text" (7 # 10)%Q 3 w' = (Ok [], w''))
      /\ (exists w'',
             query_data (Some "key") "rag-ai-agent" exact_match
               "new text" (7 # 10)%Q 3 w' = (Ok [], w'')).
Proof.
  cbv zeta.
  assert (api_key_set (Some "key") = true) as Hkey by reflexivity.
  assert (indexes (one_record_world "rag-ai-agent" "old text") !! "rag-ai-agent"
          = Some (mkIndex 1536 [mkDocument "old text" "note.txt" (Some 0%Z)]))
    as Hold by (vm_compute; reflexivity).
  assert (healthy (one_record_world "rag-ai-agent" "old text")) as Hhealthy
      by constructor.
  split; [exact Hkey|]. split; [exact Hold|]. split; [exact Hhealthy|].
  destruct (overwrite_deletes_and_fails (Some "key") "rag-ai-agent" exact_match
              [new_chunk] _ _ Hkey Hold Hhealthy)
    as (w' & Hsave & Hcalls & Hix & _ & Hquery).
  exists w'. split; [exact Hsave|]. split; [exact Hcalls|]. split; [exact Hix|].
  split.
  - destruct (Hquery "old text" (7 # 10)%Q 3%Z) as (w'' & Hrun & _). now exists w''.
  - destruct (Hquery "new text" (7 # 10)%Q 3%Z) as (w'' & Hrun & _). now exists w''.
Defined.


Lemma undecodable_text_aborts_witness :
  load_loop example_pdf example_markdown example_text ["notes.txt"] [] empty_world
  = (Ok [mkDocument "plain text" "notes.txt" None], empty_world)
  /\ Str.endswith "legacy.txt" ".txt" = true
  /\ example_read "legacy.txt" utf_8
     = Raise (UnicodeDecodeError "invalid continuation byte")
  /\ example_read "legacy.txt" latin_1 = Ok "legacy text"
  /\ load_documents example_pdf example_markdown example_text
       (["notes.txt"] ++ "legacy.txt" :: ["paper.pdf"]) empty_world
     = (Raise (RuntimeError ("Error loading " +:+ "legacy.txt")), empty_world).
Proof.
  split; [reflexivity|]. split; [reflexivity|]. split; [reflexivity|].
  split; [reflexivity|].
  apply (undecodable_text_aborts example_pdf example_markdown example_read
           ["notes.txt"] ["paper.pdf"] "legacy.txt"
           (UnicodeDecodeError "invalid continuation byte")
           [mkDocument "plain text" "notes.txt" None]); reflexivity.
Defined.

Lemma unsupported_extension_aborts_witness :
  Str.endswith "data.csv" ".pdf" = false
  /\ Str.endswith "data.csv" ".md" = false
  /\ Str.endswith "data.csv" ".txt" = false
  /\ load_loop example_pdf example_markdown example_text ["notes.txt"] [] empty_world
     = (Ok [mkDocument "plain text" "notes.txt" None], empty_world)
  /\ load_documents example_pdf example_markdown example_text
       (["notes.txt"] ++ "data.csv" :: ["paper.pdf"]) empty_world
     = (Raise (ValueError ("Unsupported file type: " +:+ "data.csv")), empty_world).
Proof.
  split; [reflexivity|]. split; [reflexivity|]. split; [reflexivity|].
  split; [reflexivity|].
  apply (proj2 (unsupported_extension_aborts example_pdf example_markdown example_text
                  ["notes.txt"] ["paper.pdf"] "data.csv" empty_world
                  eq_refl eq_refl eq_refl)
           [mkDocument "plain text" "notes.txt" None]).
  reflexivity.
Defined.



(** ** Further theorems at work on concrete inputs *)

Lemma process_files_rejects_early_witness :
  let w := one_record_world "rag-ai-agent" "old text" in
  api_key_set None = false
  /\ exists message lines,
      process_files None "rag-ai-agent" example_pdf example_markdown example_text
        (Some ["notes.txt"]) true w
      = (Ok (false, message), printed lines w)
      /\ message = "PINECONE_API_KEY is not set.".
Proof.
  cbv zeta. split; [reflexivity|].
  destruct (process_files_rejects_early None "rag-ai-agent"
              example_pdf example_markdown example_text (Some ["notes.txt"]) true
              (one_record_world "rag-ai-agent" "old text")
              (or_intror (or_intror eq_refl)))
    as (message & lines & Hrun & _ & Hkey).
  exists message, lines. split; [exact Hrun|].
  apply (Hkey "notes.txt" [] [mkDocument "plain text" "notes.txt" None] eq_refl).
  vm_compute. reflexivity.
Defined.

Lemma save_to_pinecone_other_indexes_witness :
  let archive := mkIndex 1536 [mkDocument "old text" "note.txt" (Some 0%Z)] in
  let w0 := one_record_world "rag-ai-agent" "a record" in
  let w := set_indexes (<["archive" := archive]> (indexes w0)) w0 in
  let w' := snd (save_to_pinecone (Some "key") "rag-ai-agent" [new_chunk] false w) in
  "archive" <> "rag-ai-agent"
  /\ indexes w' !! "rag-ai-agent"
     = Some (mkIndex 1536 [mkDocument "a record" "note.txt" (Some 0%Z); new_chunk])
  /\ indexes w !! "archive" = Some archive
  /\ indexes w' !! "archive" = indexes w !! "archive".
Proof.
  cbv zeta. split; [discriminate|]. split; [vm_compute; reflexivity|].
  split; [vm_compute; reflexivity|].
  apply (save_to_pinecone_other_indexes (Some "key") "rag-ai-agent" [new_chunk] false
           "archive" _ _
           (fst (save_to_pinecone (Some "key") "rag-ai-agent" [new_chunk] false
                   (set_indexes
                      (<["archive" := mkIndex 1536
                                        [mkDocument "old text" "note.txt" (Some 0%Z)]]>
                         (indexes (one_record_world "rag-ai-agent" "a record")))
                      (one_record_world "rag-ai-agent" "a record"))))).
  - discriminate.
  - apply surjective_pairing.
Defined.

Lemma save_without_overwrite_only_adds_witness :
  let w := failing_world "rag-ai-agent" "old text"
             [None; None; None; Some timed_out] in
  let run := save_to_pinecone (Some "key") "rag-ai-agent" [new_chunk] false w in
  let old := mkDocument "old text" "note.txt" (Some 0%Z) in
  indexes w !! "rag-ai-agent" = Some (mkIndex 1536 [old])
  /\ fst run = Raise timed_out
  /\ Forall (fun c => is_delete (fst c) = false) (new_calls w (snd run))
  /\ exists ix',
      indexes (snd run) !! "rag-ai-agent" = Some ix'
      /\ dimension ix' = 1536
      /\ [old] `prefix_of` records ix'.
Proof.
  cbv zeta.
  assert (indexes (failing_world "rag-ai-agent" "old text"
                     [None; None; None; Some timed_out]) !! "rag-ai-agent"
          = Some (mkIndex 1536 [mkDocument "old text" "note.txt" (Some 0%Z)]))
    as Hold by (vm_compute; reflexivity).
  split; [exact Hold|]. split; [vm_compute; reflexivity|].
  exact (save_without_overwrite_only_adds (Some "key") "rag-ai-agent" [new_chunk]
           _ _ _ _ Hold (surjective_pairing _)).
Defined.

Lemma save_appends_to_index_witness :
  let w := one_record_world "rag-ai-agent" "old text" in
  let old := mkDocument "old text" "note.txt" (Some 0%Z) in
  api_key_set (Some "key") = true
  /\ indexes w !! "rag-ai-agent" = Some (mkIndex 1536 [old])
  /\ healthy w
  /\ exists w',
      save_to_pinecone (Some "key") "rag-ai-agent" [new_chunk] false w
      = (Ok (Some (mkHandle 0 "rag-ai-agent")), w')
      /\ indexes w' !! "rag-ai-agent" = Some (mkIndex 1536 [old; new_chunk]).
Proof.
  cbv zeta.
  assert (indexes (one_record_world "rag-ai-agent" "old text") !! "rag-ai-agent"
          = Some (mkIndex 1536 [mkDocument "old text" "note.txt" (Some 0%Z)]))
    as Hold by (vm_compute; reflexivity).
  assert (healthy (one_record_world "rag-ai-agent" "old text")) as Hhealthy
      by constructor.
  split; [reflexivity|]. split; [exact Hold|]. split; [exact Hhealthy|].
  destruct (save_appends_to_index (Some "key") "rag-ai-agent" [new_chunk] _ _
              eq_refl Hold eq_refl Hhealthy) as (w' & Hrun & _ & Hix & _).
  exists w'. split; [exact Hrun | exact Hix].
Defined.

Lemma save_to_missing_index_fails_witness :
  api_key_set (Some "key") = true
  /\ indexes empty_world !! "rag-ai-agent" = None
  /\ healthy empty_world
  /\ exists w',
      save_to_pinecone (Some "key") "rag-ai-agent" [new_chunk] false empty_world
      = (Raise missing_spec, w')
      /\ map fst (new_calls empty_world w') = [ListIndexes]
      /\ indexes w' = indexes empty_world.
Proof.
  assert (healthy empty_world) as Hhealthy by constructor.
  split; [reflexivity|]. split; [reflexivity|]. split; [exact Hhealthy|].
  destruct (save_to_missing_index_fails (Some "key") "rag-ai-agent" [new_chunk] false
              empty_world eq_refl eq_refl Hhealthy)
    as (w' & Hrun & Hcalls & Hix & _).
  exists w'. split; [exact Hrun|]. split; [exact Hcalls | exact Hix].
Defined.

Lemma query_data_reads_only_witness :
  let w := one_record_world "rag-ai-agent" "the answer" in
  let run := query_data (Some "key") "rag-ai-agent" exact_match
               "the answer" (7 # 10)%Q 3 w in
  fst run = Ok [(mkDocument "the answer" "note.txt" (Some 0%Z), 1%Q)]
  /\ indexes (snd run) = indexes w
  /\ reads (new_calls w (snd run)).
Proof.
  cbv zeta. split; [vm_compute; reflexivity|].
  destruct (query_data_reads_only (Some "key") "rag-ai-agent" exact_match
              "the answer" (7 # 10)%Q 3
              (one_record_world "rag-ai-agent" "the answer") _ _
              (surjective_pairing _))
    as (Hindexes & Hreads & _).
  split; [exact Hindexes | exact Hreads].
Defined.

Lemma query_data_error_propagates_witness :
  let w := failing_world "rag-ai-agent" "the answer" [None; None; Some timed_out] in
  let run := query_data (Some "key") "rag-ai-agent" exact_match
               "the answer" (7 # 10)%Q 3 w in
  In (EmbedQuery "the answer", Some timed_out) (new_calls w (snd run))
  /\ fst run = Raise timed_out
  /\ exists before,
      new_calls w (snd run) = before ++ [(EmbedQuery "the answer", Some timed_out)]
      /\ Forall succeeded before.
Proof.
  cbv zeta.
  assert (In (EmbedQuery "the answer", Some timed_out)
            (new_calls
               (failing_world "rag-ai-agent" "the answer"
                  [None; None; Some timed_out])
               (snd (query_data (Some "key") "rag-ai-agent" exact_match
                       "the answer" (7 # 10)%Q 3
                       (failing_world "rag-ai-agent" "the answer"
                          [None; None; Some timed_out])))))
    as Hfailed by (vm_compute; right; right; left; reflexivity).
  split; [exact Hfailed|].
  exact (query_data_error_propagates (Some "key") "rag-ai-agent" exact_match
           "the answer" (7 # 10)%Q 3 _ _ _ _ _ (surjective_pairing _) Hfailed).
Defined.

Lemma query_data_all_or_nothing_witness :
  let w := one_record_world "rag-ai-agent" "the answer" in
  let hit := (mkDocument "the answer" "note.txt" (Some 0%Z), 1%Q) in
  let run := query_data (Some "key") "rag-ai-agent" exact_match
               "the answer" (7 # 10)%Q 3 w in
  run = (Ok [hit], snd run)
  /\ (7 # 10 <= snd hit)%Q
  /\ Sorted descending [hit].
Proof.
  cbv zeta.
  assert (query_data (Some "key") "rag-ai-agent" exact_match
            "the answer" (7 # 10)%Q 3 (one_record_world "rag-ai-agent" "the answer")
          = (Ok [(mkDocument "the answer" "note.txt" (Some 0%Z), 1%Q)],
             snd (query_data (Some "key") "rag-ai-agent" exact_match
                    "the answer" (7 # 10)%Q 3
                    (one_record_world "rag-ai-agent" "the answer"))))
    as Hrun by (vm_compute; reflexivity).
  split; [exact Hrun|].
  destruct (query_data_all_or_nothing (Some "key") "rag-ai-agent" exact_match
              "the answer" (7 # 10)%Q 3 _ _ _ Hrun)
    as [Hnone | (db & ix & first & rest & _ & _ & _ & Hfirst & Hscore & Hsorted & _)].
  - discriminate Hnone.
  - injection Hfirst as <- _. split; [exact Hscore | exact Hsorted].
Defined.

Lemma query_data_connects_once_witness :
  let w := one_record_world "rag-ai-agent" "the answer" in
  api_key_set (Some "key") = true
  /\ _vector_db w = None
  /\ indexes w !! "rag-ai-agent"
     = Some (mkIndex 1536 [mkDocument "the answer" "note.txt" (Some 0%Z)])
  /\ healthy w
  /\ exists r1 w1 r2 w2,
      query_data (Some "key") "rag-ai-agent" exact_match
        "the answer" (7 # 10)%Q 3 w = (Ok r1, w1)
      /\ map fst (new_calls w w1)
         = [ListIndexes; DescribeIndex "rag-ai-agent";
            EmbedQuery "the answer"; Query "rag-ai-agent" 3]
      /\ query_data (Some "key") "rag-ai-agent" exact_match
           "another question" (7 # 10)%Q 3 w1 = (Ok r2, w2)
      /\ map fst (new_calls w1 w2)
         = [EmbedQuery "another question"; Query "rag-ai-agent" 3]
      /\ _vector_db w1 = Some (mkHandle 0 "rag-ai-agent")
      /\ _vector_db w2 = _vector_db w1.
Proof.
  cbv zeta.
  assert (indexes (one_record_world "rag-ai-agent" "the answer") !! "rag-ai-agent"
          = Some (mkIndex 1536 [mkDocument "the answer" "note.txt" (Some 0%Z)]))
    as Hix by (vm_compute; reflexivity).
  assert (healthy (one_record_world "rag-ai-agent" "the answer")) as Hhealthy
      by constructor.
  split; [reflexivity|]. split; [reflexivity|]. split; [exact Hix|].
  split; [exact Hhealthy|].
  exact (query_data_connects_once (Some "key") "rag-ai-agent" exact_match
           "the answer" "another question" (7 # 10)%Q 3 _
           (one_record_world "rag-ai-agent" "the answer")
           eq_refl eq_refl Hix Hhealthy).
Defined.

Lemma close_then_reconnect_witness :
  let w := snd (get_vector_db (Some "key") "rag-ai-agent"
                  (one_record_world "rag-ai-agent" "a record")) in
  let old := mkHandle 0 "rag-ai-agent" in
  api_key_set (Some "key") = true
  /\ _vector_db w = Some old
  /\ h_id old < next_id w
  /\ indexes w !! "rag-ai-agent"
     = Some (mkIndex 1536 [mkDocument "a record" "note.txt" (Some 0%Z)])
  /\ healthy w
  /\ exists w1 w2 h,
      close_vector_db w = (Ok tt, w1)
      /\ _vector_db w1 = None
      /\ get_vector_db (Some "key") "rag-ai-agent" w1 = (Ok (Some h), w2)
      /\ h <> old.
Proof.
  cbv zeta.
  set (w := snd (get_vector_db (Some "key") "rag-ai-agent"
                   (one_record_world "rag-ai-agent" "a record"))).
  assert (_vector_db w = Some (mkHandle 0 "rag-ai-agent")) as Hdb
      by (vm_compute; reflexivity).
  assert (h_id (mkHandle 0 "rag-ai-agent") < next_id w) as Hid
      by (vm_compute; lia).
  assert (indexes w !! "rag-ai-agent"
          = Some (mkIndex 1536 [mkDocument "a record" "note.txt" (Some 0%Z)]))
    as Hix by (vm_compute; reflexivity).
  assert (healthy w) as Hhealthy by (vm_compute; constructor).
  split; [reflexivity|]. split; [exact Hdb|]. split; [exact Hid|].
  split; [exact Hix|]. split; [exact Hhealthy|].
  destruct (close_then_reconnect (Some "key") "rag-ai-agent" _ _ w
              eq_refl Hdb Hid Hix Hhealthy)
    as (w1 & w2 & h & Hclose & Hnone & _ & _ & _ & Hget & Hnew & _).
  exists w1, w2, h.
  split; [exact Hclose|]. split; [exact Hnone|]. split; [exact Hget | exact Hnew].
Defined.

Lemma load_documents_app_witness :
  let load := load_documents example_pdf example_markdown example_text in
  let readme := mkDocument "a heading" "readme.md" None in
  let notes := mkDocument "plain text" "notes.txt" None in
  let paper := mkDocument "a page" "paper.pdf" None in
  fst (load ["readme.md"] empty_world) = Ok [readme]
  /\ fst (load ["notes.txt"; "paper.pdf"] empty_world) = Ok [notes; paper]
  /\ fst (load (["readme.md"] ++ ["notes.txt"; "paper.pdf"]) empty_world)
     = Ok ([readme] ++ [notes; paper]).
Proof.
  cbv zeta. split; [reflexivity|]. split; [reflexivity|].
  apply (load_documents_app example_pdf example_markdown example_text);
    reflexivity.
Defined.

Lemma load_documents_failure_aborts_witness :
  let e := OtherError "EOF marker not found" in
  load_loop example_damaged_pdf example_markdown example_text ["notes.txt"] []
    empty_world
  = (Ok [mkDocument "plain text" "notes.txt" None], empty_world)
  /\ Str.endswith "damaged.pdf" ".pdf" = true
  /\ example_damaged_pdf "damaged.pdf" = Raise e
  /\ load_documents example_damaged_pdf example_markdown example_text
       (["notes.txt"] ++ "damaged.pdf" :: ["paper.pdf"]) empty_world
     = (Raise e, empty_world).
Proof.
  cbv zeta. split; [reflexivity|]. split; [reflexivity|]. split; [reflexivity|].
  apply (load_documents_failure_aborts example_damaged_pdf example_markdown
           example_text ["notes.txt"] ["paper.pdf"] "damaged.pdf"
           (OtherError "EOF marker not found")
           [mkDocument "plain text" "notes.txt" None]).
  - reflexivity.
  - left. split; reflexivity.
Defined.

Lemma load_documents_only_prints_witness :
  let run := load_documents example_pdf example_markdown example_text
               ["notes.txt"; "paper.pdf"] empty_world in
  fst run = Ok [mkDocument "plain text" "notes.txt" None;
                mkDocument "a page" "paper.pdf" None]
  /\ exists lines, snd run = printed lines empty_world.
Proof.
  cbv zeta. split; [reflexivity|].
  exact (load_documents_only_prints example_pdf example_markdown example_text
           ["notes.txt"; "paper.pdf"] empty_world _ _ (surjective_pairing _)).
Defined.

Lemma process_files_ingests_witness :
  let w := one_record_world "rag-ai-agent" "old text" in
  let old := mkDocument "old text" "note.txt" (Some 0%Z) in
  let notes := mkDocument "plain text" "notes.txt" None in
  api_key_set (Some "key") = true
  /\ healthy w
  /\ indexes w !! "rag-ai-agent" = Some (mkIndex 1536 [old])
  /\ fst (load_documents example_pdf example_markdown example_text ["notes.txt"] w)
     = Ok [notes]
  /\ exists w',
      process_files (Some "key") "rag-ai-agent"
        example_pdf example_markdown example_text (Some ["notes.txt"]) false w
      = (Ok (true, "Files processed and saved to vector database successfully."),
         w')
      /\ indexes w' !! "rag-ai-agent"
         = Some (mkIndex 1536
                   ([old] ++ split_documents 500 100 default_separators [notes])).
Proof.
  cbv zeta.
  assert (indexes (one_record_world "rag-ai-agent" "old text") !! "rag-ai-agent"
          = Some (mkIndex 1536 [mkDocument "old text" "note.txt" (Some 0%Z)]))
    as Hold by (vm_compute; reflexivity).
  assert (healthy (one_record_world "rag-ai-agent" "old text")) as Hhealthy
      by constructor.
  assert (fst (load_documents example_pdf example_markdown example_text
                 ["notes.txt"] (one_record_world "rag-ai-agent" "old text"))
          = Ok [mkDocument "plain text" "notes.txt" None])
    as Hload by (vm_compute; reflexivity).
  split; [reflexivity|]. split; [exact Hhealthy|]. split; [exact Hold|].
  split; [exact Hload|].
  destruct (process_files_ingests (Some "key") "rag-ai-agent"
              example_pdf example_markdown example_text exact_match
              "notes.txt" [] [mkDocument "plain text" "notes.txt" None] _
              (one_record_world "rag-ai-agent" "old text")
              eq_refl Hhealthy Hold eq_refl Hload)
    as (w' & Hrun & Hix & _).
  exists w'. split; [exact Hrun | exact Hix].
Defined.

Lemma failed_overwrite_loses_records_witness :
  let w := one_record_world "rag-ai-agent" "old text" in
  let run := save_to_pinecone (Some "key") "rag-ai-agent" [new_chunk] true w in
  api_key_set (Some "key") = true
  /\ indexes w !! "rag-ai-agent"
     = Some (mkIndex 1536 [mkDocument "old text" "note.txt" (Some 0%Z)])
  /\ answers 2 w
  /\ run = (Raise missing_spec, snd run)
  /\ indexes (snd run) !! "rag-ai-agent" = None
  /\ holds_nothing "rag-ai-agent" (snd run)
  /\ In (DeleteIndex "rag-ai-agent", None) (new_calls w (snd run)).
Proof.
  cbv zeta.
  set (w := one_record_world "rag-ai-agent" "old text").
  assert (indexes w !! "rag-ai-agent"
          = Some (mkIndex 1536 [mkDocument "old text" "note.txt" (Some 0%Z)]))
    as Hold by (vm_compute; reflexivity).
  assert (answers 2 w) as Hanswers by (repeat constructor).
  assert (save_to_pinecone (Some "key") "rag-ai-agent" [new_chunk] true w
          = (Raise missing_spec,
             snd (save_to_pinecone (Some "key") "rag-ai-agent" [new_chunk] true w)))
    as Hrun by (vm_compute; reflexivity).
  split; [reflexivity|]. split; [exact Hold|]. split; [exact Hanswers|].
  split; [exact Hrun|]. split; [vm_compute; reflexivity|].
  exact (failed_overwrite_loses_records (Some "key") "rag-ai-agent" [new_chunk]
           _ missing_spec w _ eq_refl Hold Hanswers Hrun).
Defined.

Lemma process_files_load_failure_witness :
  let w := one_record_world "rag-ai-agent" "old text" in
  let e := ValueError ("Unsupported file type: " +:+ "data.csv") in
  fst (load_documents example_pdf example_markdown example_text
         ["notes.txt"; "data.csv"] w) = Raise e
  /\ exists lines,
      process_files (Some "key") "rag-ai-agent"
        example_pdf example_markdown example_text
        (Some ["notes.txt"; "data.csv"]) true w
      = (Ok (false, str e), printed lines w)
      /\ last lines = Some ("Error processing files: " +:+ str e).
Proof.
  cbv zeta. split; [reflexivity|].
  apply (process_files_load_failure (Some "key") "rag-ai-agent"
           example_pdf example_markdown example_text).
  reflexivity.
Defined.


Lemma save_to_pinecone_twice_witness :
  let w := one_record_world "rag-ai-agent" "old text" in
  let old := mkDocument "old text" "note.txt" (Some 0%Z) in
  api_key_set (Some "key") = true
  /\ healthy w
  /\ indexes w !! "rag-ai-agent" = Some (mkIndex 1536 [old])
  /\ exists h1 w1 h2 w2,
      save_to_pinecone (Some "key") "rag-ai-agent" [new_chunk] false w
      = (Ok (Some h1), w1)
      /\ save_to_pinecone (Some "key") "rag-ai-agent" [new_chunk] false w1
         = (Ok (Some h2), w2)
      /\ indexes w2 !! "rag-ai-agent"
         = Some (mkIndex 1536 ([old] ++ [new_chunk] ++ [new_chunk]))
      /\ h2 <> h1.
Proof.
  cbv zeta.
  assert (indexes (one_record_world "rag-ai-agent" "old text") !! "rag-ai-agent"
          = Some (mkIndex 1536 [mkDocument "old text" "note.txt" (Some 0%Z)]))
    as Hold by (vm_compute; reflexivity).
  assert (healthy (one_record_world "rag-ai-agent" "old text")) as Hhealthy
      by constructor.
  split; [reflexivity|]. split; [exact Hhealthy|]. split; [exact Hold|].
  exact (save_to_pinecone_twice (Some "key") "rag-ai-agent" [new_chunk] _
           (one_record_world "rag-ai-agent" "old text")
           eq_refl Hhealthy Hold eq_refl).
Defined.
